(** * The ruler of pkg/ruler/ruler.go: sync loop, evaluator registry,
      notifier pool and rule inspection, as a state-passing model.

    The ruler's collaborators (ring, file mapper, Prometheus rule manager,
    notifier, gRPC) are not part of ruler.go.  Their answers are taken
    from an environment record whose fields see the history of calls made
    so far, so one collaborator may answer one question differently at
    two moments of a tick.  Everything ruler.go itself does (control
    flow, map updates, counters, the order of calls) is written out. *)

From Stdlib Require Import ZArith List String Ascii Lia.
From stdpp Require Import gmap strings list fin_maps.

Open Scope Z_scope.

(** ** Go values *)

(** A Go call returning [(T, error)]. *)
Inductive result (A : Type) : Type :=
| Ok (a : A)
| Err (e : string).
Arguments Ok {A} a.
Arguments Err {A} e.

Definition is_err {A} (r : result A) : bool :=
  match r with Ok _ => false | Err _ => true end.

(** [time.Time] as an offset from the zero instant, [time.Duration] as a
    number of nanoseconds. *)
Definition Time := Z.
Definition Duration := Z.
Definition IsZero (t : Time) : bool := t =? 0.

(** [[]byte(s)]: a Go string is its bytes. *)
Definition byte_of_ascii (c : ascii) : Z := Z.of_N (N_of_ascii c).

Fixpoint bytes_of_string (s : string) : list Z :=
  match s with
  | EmptyString => []
  | String c s' => byte_of_ascii c :: bytes_of_string s'
  end.

(** [strings.TrimPrefix]: [s] without the leading [pre], or [s] itself
    when it does not start with [pre]. *)
Fixpoint drop_string (n : nat) (s : string) : string :=
  match n, s with
  | O, _ => s
  | S n', String _ s' => drop_string n' s'
  | S _, EmptyString => EmptyString
  end.

Definition TrimPrefix (s pre : string) : string :=
  if String.prefix pre s then drop_string (String.length pre) s else s.

(** ** hash/fnv: the 32-bit FNV-1a hasher [sum32a] *)
Module Fnv.

Definition offset32 : Z := 2166136261.
Definition prime32 : Z := 16777619.

(** [uint32] arithmetic wraps around. *)
Definition u32 (z : Z) : Z := z mod 2 ^ 32.

(** [type sum32a uint32]: the hasher is its running hash. *)
Definition sum32a := Z.

Definition New32a : sum32a := offset32.

(** [Reset] stores [offset32] in the hasher. *)
Definition Reset (s : sum32a) : sum32a := offset32.

(** The loop body of [Write]: [hash ^= sum32a(c); hash *= prime32]. *)
Definition step (hash : sum32a) (c : Z) : sum32a :=
  u32 (Z.lxor hash c * prime32).

Fixpoint write_loop (hash : sum32a) (data : list Z) : sum32a :=
  match data with
  | [] => hash
  | c :: data' => write_loop (step hash c) data'
  end.

(** [Write(data []byte) (int, error)]: the new hasher,
    [len(data)] and the error, which is always nil. *)
Definition Write (s : sum32a) (data : list Z)
  : sum32a * Z * option string :=
  (write_loop s data, Z.of_nat (length data), None).

(** [Sum32] returns the running hash as a [uint32]. *)
Definition Sum32 (s : sum32a) : Z := s.

End Fnv.

(** ** Rules and alerts *)

Definition Labels := list (string * string).

(** [promRules.AlertState]. *)
Inductive AlertState := StateInactive | StatePending | StateFiring.

#[global] Instance AlertState_eq_dec : EqDecision AlertState.
Proof. solve_decision. Defined.

(** [func (s AlertState) String() string]. *)
Definition AlertState_String (s : AlertState) : string :=
  match s with
  | StateInactive => "inactive"
  | StatePending => "pending"
  | StateFiring => "firing"
  end.

(** [promRules.Alert]. *)
Record Alert := {
  alert_State : AlertState;
  alert_Labels : Labels;
  alert_Annotations : Labels;
  alert_Value : Z;
  alert_ActiveAt : Time;
  alert_FiredAt : Time;
  alert_ResolvedAt : Time;
  alert_LastSentAt : Time;
  alert_ValidUntil : Time
}.

(** [notifier.Alert]; a field that is not set keeps its zero value. *)
Record NotifierAlert := {
  na_Labels : Labels;
  na_Annotations : Labels;
  na_StartsAt : Time;
  na_EndsAt : Time;
  na_GeneratorURL : string
}.

(** The body of the loop of [sendAlerts] for an alert that is not
    skipped. *)
Definition toNotifierAlert (tableLink : string -> string)
    (externalURL expr : string) (alert : Alert) : NotifierAlert :=
  let a := {| na_StartsAt := alert_FiredAt alert;
              na_Labels := alert_Labels alert;
              na_Annotations := alert_Annotations alert;
              na_GeneratorURL := externalURL +:+ tableLink expr;
              na_EndsAt := 0 |} in
  if negb (IsZero (alert_ResolvedAt alert))
  then {| na_StartsAt := na_StartsAt a;
          na_Labels := na_Labels a;
          na_Annotations := na_Annotations a;
          na_GeneratorURL := na_GeneratorURL a;
          na_EndsAt := alert_ResolvedAt alert |}
  else a.

(** The loop of [sendAlerts]: [res] grows by [append]. *)
Fixpoint sendAlerts_loop (tableLink : string -> string)
    (externalURL expr : string) (alerts : list Alert)
    (res : list NotifierAlert) : list NotifierAlert :=
  match alerts with
  | [] => res
  | alert :: rest =>
      match alert_State alert with
      | StatePending =>
          sendAlerts_loop tableLink externalURL expr rest res
      | _ =>
          sendAlerts_loop tableLink externalURL expr rest
            (res ++ [toNotifierAlert tableLink externalURL expr alert])
      end
  end.

(** [sendAlerts(n, externalURL)] applied to [expr] and [alerts]: the
    argument of the one call [n.Send(res...)], or [None] when [Send] is
    not called ([len(alerts) = 0]).  [tableLink] stands for Prometheus's
    [strutil.TableLinkForExpression]. *)
Definition sendAlerts (tableLink : string -> string)
    (externalURL expr : string) (alerts : list Alert)
  : option (list NotifierAlert) :=
  let res := sendAlerts_loop tableLink externalURL expr alerts [] in
  if (0 <? Z.of_nat (length alerts)) then Some res else None.

(** ** Rule groups as stored (package rules) and as run (Prometheus) *)

(** [rules.AlertDesc]. *)
Record AlertDesc := {
  ad_State : string;
  ad_Labels : Labels;
  ad_Annotations : Labels;
  ad_Value : Z;
  ad_ActiveAt : Time;
  ad_FiredAt : Time;
  ad_ResolvedAt : Time;
  ad_LastSentAt : Time;
  ad_ValidUntil : Time
}.

(** [rules.RuleDesc]; unset fields are empty. *)
Record RuleDesc := {
  rd_Expr : string;
  rd_Record : string;
  rd_Alert : string;
  rd_For : Duration;
  rd_Labels : Labels;
  rd_Annotations : Labels;
  rd_State : string;
  rd_Health : string;
  rd_LastError : string;
  rd_Alerts : list AlertDesc;
  rd_EvaluationTimestamp : Time;
  rd_EvaluationDuration : Duration
}.

(** [rules.RuleGroupDesc]. *)
Record RuleGroupDesc := {
  rg_Name : string;
  rg_Namespace : string;
  rg_Interval : Duration;
  rg_Rules : list RuleDesc;
  rg_User : string;
  rg_EvaluationTimestamp : Time;
  rg_EvaluationDuration : Duration
}.

(** [store.RuleGroupList]. *)
Definition RuleGroupList := list RuleGroupDesc.

(** [*promRules.AlertingRule], through the getters [getLocalRules]
    reads. *)
Record AlertingRule := {
  ar_Name : string;
  ar_Query : string;
  ar_Duration : Duration;
  ar_Labels : Labels;
  ar_Annotations : Labels;
  ar_State : AlertState;
  ar_Health : string;
  ar_LastError : option string;
  ar_ActiveAlerts : list Alert;
  ar_EvaluationTimestamp : Time;
  ar_EvaluationDuration : Duration
}.

(** [*promRules.RecordingRule]. *)
Record RecordingRule := {
  rr_Name : string;
  rr_Query : string;
  rr_Labels : Labels;
  rr_Health : string;
  rr_LastError : option string;
  rr_EvaluationTimestamp : Time;
  rr_EvaluationDuration : Duration
}.

(** The interface [promRules.Rule]: the two types the type switch of
    [getLocalRules] knows, and any other implementation. *)
Inductive Rule :=
| IsAlertingRule (rule : AlertingRule)
| IsRecordingRule (rule : RecordingRule)
| IsOtherRule (name : string) (lastError : option string).

(** [*promRules.Group]. *)
Record Group := {
  grp_Name : string;
  grp_File : string;
  grp_Interval : Duration;
  grp_Rules : list Rule;
  grp_EvaluationTimestamp : Time;
  grp_EvaluationDuration : Duration
}.

(** [*promRules.Manager]: its address, the options [newManager] built it
    with, whether [Run] was called, and what the last successful [Update]
    loaded. *)
Record Manager := {
  mgr_ptr : nat;
  mgr_userID : string;
  mgr_ExternalURL : string;
  mgr_notifier : nat;
  mgr_running : bool;
  mgr_files : list string;
  mgr_groups : list Group
}.

(** Modelled from the spec: [rulerNotifier] (declared in notifier.go,
    which is not among the sources): the per-tenant notifier, with the
    address of its [notifier.Manager], the tenant its [Do] closure
    injects, and its queue capacity. *)
Record rulerNotifier := {
  rn_notifier : nat;
  rn_userID : string;
  rn_QueueCapacity : Z
}.

(** [ring.IngesterDesc] and the [ring.ReplicationSet] answered by
    [ring.Get]: the ring answers an empty ring with an error, so a
    replication set has a first ingester and [Ingesters[0]] is defined. *)
Record IngesterDesc := { Addr : string }.

Record ReplicationSet := {
  rs_first : IngesterDesc;
  rs_rest : list IngesterDesc
}.

(** A [context.Context]: the tenant it carries, and the tenant header of
    its outgoing gRPC metadata. *)
Record Ctx := {
  ctx_orgID : option string;
  ctx_grpcOrgID : option string
}.

(** ** What the ruler does to the outside, in order *)

Inductive Event :=
| EvListAllRuleGroups (ok : bool)
| EvRingGet (hash : Z) (ok : bool)
| EvRingCheckErrorsInc
| EvMapRules (user : string) (groups : RuleGroupList) (ok : bool)
| EvConfigUpdatesInc (user : string)
| EvNewRulerNotifier (n : nat) (user : string)
| EvNotifierRun (n : nat)
| EvApplyConfig (n : nat) (ok : bool)
| EvNotifierStop (n : nat)
| EvNewManager (m : nat) (user : string)
| EvManagerRun (m : nat)
| EvManagerUpdate (m : nat) (files : list string) (ok : bool)
| EvManagerStop (m : nat)
| EvRingGetAll (ok : bool)
| EvInjectIntoGRPCRequest (ctx : Ctx)
| EvDial (addr : string) (ok : bool)
| EvRules (addr : string) (ctx : Ctx) (ok : bool)
| EvSubservicesStop.

Definition History := list Event.

(** The rule files on disk: path to content. *)
Abbreviation Disk := (gmap string string).

(** The collaborators.  Each answer may depend on the history so far.
    - [ListAllRuleGroups]: [r.store.ListAllRuleGroups]; the map it
      returns is given as the list of its entries in the order the
      [range] of this tick visits them.
    - [ring_Get], [ring_GetAll], [lifecycler_Addr]: the ring.
    - [MapRules user groups]: [r.mapper.MapRules(user,
      groups.Formatted())] (mapper.go and [Formatted] are not among the
      sources); it answers the new disk and [(update, files, err)].
    - [applyConfig]: the [rulerNotifier]'s, [nil] being [None].
    - [manager_Update]: [promRules.Manager.Update], which answers the
      groups it loaded, or fails and keeps the previous rule set.
    - [InjectIntoGRPCRequest]: of weaveworks/common/user.
    - [grpc_Dial], [client_Rules]: the gRPC client of a peer.
    - [TableLinkForExpression], [filepath_Join]: library functions. *)
Record Env := {
  ListAllRuleGroups : History -> result (list (string * RuleGroupList));
  ring_Get : History -> Z -> result ReplicationSet;
  ring_GetAll : History -> result (list IngesterDesc);
  lifecycler_Addr : string;
  MapRules : History -> string -> RuleGroupList -> Disk ->
             Disk * result (bool * list string);
  applyConfig : History -> nat -> option string;
  manager_Update : History -> Manager -> Duration -> list string ->
                   result (list Group);
  InjectIntoGRPCRequest : Ctx -> result Ctx;
  grpc_Dial : History -> string -> option string;
  client_Rules : History -> string -> Ctx -> result (list RuleGroupDesc);
  TableLinkForExpression : string -> string;
  filepath_Join : string -> string -> string
}.

(** The fields of [Config] that ruler.go reads after start-up, and
    [r.alertURL.String()]. *)
Record Config := {
  EvaluationInterval : Duration;
  RulePath : string;
  NotificationQueueCapacity : Z;
  EnableSharding : bool;
  alertURL : string
}.

(** The [Ruler]: its configuration, the two maps, the counters
    [ringCheckErrors] and [configUpdatesTotal], the rule files, the next
    free address, and the history. *)
Record Ruler := {
  cfg : Config;
  userManagers : gmap string Manager;
  notifiers : gmap string rulerNotifier;
  ringCheckErrors : nat;
  configUpdatesTotal : gmap string nat;
  disk : Disk;
  nextPtr : nat;
  log : History
}.

Definition emit (e : Event) (r : Ruler) : Ruler :=
  {| cfg := cfg r; userManagers := userManagers r;
     notifiers := notifiers r; ringCheckErrors := ringCheckErrors r;
     configUpdatesTotal := configUpdatesTotal r; disk := disk r;
     nextPtr := nextPtr r; log := log r ++ [e] |}.

Definition set_userManagers (m : gmap string Manager) (r : Ruler) : Ruler :=
  {| cfg := cfg r; userManagers := m;
     notifiers := notifiers r; ringCheckErrors := ringCheckErrors r;
     configUpdatesTotal := configUpdatesTotal r; disk := disk r;
     nextPtr := nextPtr r; log := log r |}.

Definition set_notifiers (m : gmap string rulerNotifier) (r : Ruler) : Ruler :=
  {| cfg := cfg r; userManagers := userManagers r;
     notifiers := m; ringCheckErrors := ringCheckErrors r;
     configUpdatesTotal := configUpdatesTotal r; disk := disk r;
     nextPtr := nextPtr r; log := log r |}.

Definition set_disk (d : Disk) (r : Ruler) : Ruler :=
  {| cfg := cfg r; userManagers := userManagers r;
     notifiers := notifiers r; ringCheckErrors := ringCheckErrors r;
     configUpdatesTotal := configUpdatesTotal r; disk := d;
     nextPtr := nextPtr r; log := log r |}.

(** [ringCheckErrors.Inc()]. *)
Definition ringCheckErrors_Inc (r : Ruler) : Ruler :=
  emit EvRingCheckErrorsInc
    {| cfg := cfg r; userManagers := userManagers r;
       notifiers := notifiers r; ringCheckErrors := S (ringCheckErrors r);
       configUpdatesTotal := configUpdatesTotal r; disk := disk r;
       nextPtr := nextPtr r; log := log r |}.

(** The value of [cortex_ruler_config_updates_total{user}]. *)
Definition configUpdates (r : Ruler) (user : string) : nat :=
  default O (configUpdatesTotal r !! user).

(** [configUpdatesTotal.WithLabelValues(user).Inc()]. *)
Definition configUpdatesTotal_Inc (user : string) (r : Ruler) : Ruler :=
  emit (EvConfigUpdatesInc user)
    {| cfg := cfg r; userManagers := userManagers r;
       notifiers := notifiers r; ringCheckErrors := ringCheckErrors r;
       configUpdatesTotal :=
         <[user := S (configUpdates r user)]> (configUpdatesTotal r);
       disk := disk r; nextPtr := nextPtr r; log := log r |}.

(** A fresh address. *)
Definition alloc (r : Ruler) : nat * Ruler :=
  (nextPtr r,
   {| cfg := cfg r; userManagers := userManagers r;
      notifiers := notifiers r; ringCheckErrors := ringCheckErrors r;
      configUpdatesTotal := configUpdatesTotal r; disk := disk r;
      nextPtr := S (nextPtr r); log := log r |}).

(** ** The functions of ruler.go *)

Section RulerCode.

Variable E : Env.

(** [getOrCreateNotifier]: the [*notifier.Manager] of the tenant.
    [go n.run()] starts the delivery loop before [applyConfig]; a
    notifier whose [applyConfig] fails is not stored. *)
Definition getOrCreateNotifier (userID : string) (r : Ruler)
  : Ruler * result nat :=
  match notifiers r !! userID with
  | Some n => (r, Ok (rn_notifier n))
  | None =>
      let '(p, r) := alloc r in
      let n := {| rn_notifier := p; rn_userID := userID;
                  rn_QueueCapacity := NotificationQueueCapacity (cfg r) |} in
      let r := emit (EvNewRulerNotifier p userID) r in
      let r := emit (EvNotifierRun p) r in
      match applyConfig E (log r) p with
      | Some err => (emit (EvApplyConfig p false) r, Err err)
      | None =>
          let r := emit (EvApplyConfig p true) r in
          (set_notifiers (<[userID := n]> (notifiers r)) r, Ok p)
      end
  end.

(** [ownsRule]. *)
Definition ownsRule (hash : Z) (r : Ruler) : Ruler * result bool :=
  match ring_Get E (log r) hash with
  | Err err =>
      (ringCheckErrors_Inc (emit (EvRingGet hash false) r), Err err)
  | Ok rlrs =>
      let r := emit (EvRingGet hash true) r in
      if String.eqb (Addr (rs_first rlrs)) (lifecycler_Addr E)
      then (r, Ok true)
      else (r, Ok false)
  end.

(** [newManager]: a manager that is neither running nor loaded. *)
Definition newManager (userID : string) (r : Ruler)
  : Ruler * result Manager :=
  match getOrCreateNotifier userID r with
  | (r, Err err) => (r, Err err)
  | (r, Ok notifier) =>
      let '(p, r) := alloc r in
      (emit (EvNewManager p userID) r,
       Ok {| mgr_ptr := p; mgr_userID := userID;
             mgr_ExternalURL := alertURL (cfg r);
             mgr_notifier := notifier; mgr_running := false;
             mgr_files := []; mgr_groups := [] |})
  end.

(** [manager.Run()]. *)
Definition Manager_Run (m : Manager) : Manager :=
  {| mgr_ptr := mgr_ptr m; mgr_userID := mgr_userID m;
     mgr_ExternalURL := mgr_ExternalURL m;
     mgr_notifier := mgr_notifier m; mgr_running := true;
     mgr_files := mgr_files m; mgr_groups := mgr_groups m |}.

Definition Manager_loaded (files : list string) (groups : list Group)
    (m : Manager) : Manager :=
  {| mgr_ptr := mgr_ptr m; mgr_userID := mgr_userID m;
     mgr_ExternalURL := mgr_ExternalURL m;
     mgr_notifier := mgr_notifier m; mgr_running := mgr_running m;
     mgr_files := files; mgr_groups := groups |}.

(** [err = manager.Update(r.cfg.EvaluationInterval, files, nil)] and
    the [if err != nil] after it, for the manager stored under [user]:
    the map holds a pointer, so what [Update] loads is seen through
    the map. *)
Definition updateManager (user : string) (manager : Manager)
    (files : list string) (r : Ruler) : Ruler :=
  match manager_Update E (log r) manager
          (EvaluationInterval (cfg r)) files with
  | Err _ => emit (EvManagerUpdate (mgr_ptr manager) files false) r
  | Ok groups =>
      emit (EvManagerUpdate (mgr_ptr manager) files true)
        (set_userManagers
           (<[user := Manager_loaded files groups manager]>
              (userManagers r)) r)
  end.

(** [syncManager]. *)
Definition syncManager (user : string) (groups : RuleGroupList)
    (r : Ruler) : Ruler :=
  let '(d, res) := MapRules E (log r) user groups (disk r) in
  let r := set_disk d r in
  match res with
  | Err _ => emit (EvMapRules user groups false) r
  | Ok (update, files) =>
      let r := emit (EvMapRules user groups true) r in
      if update then
        let r := configUpdatesTotal_Inc user r in
        match userManagers r !! user with
        | Some manager => updateManager user manager files r
        | None =>
            match newManager user r with
            | (r, Err _) => r
            | (r, Ok manager) =>
                let manager := Manager_Run manager in
                let r := emit (EvManagerRun (mgr_ptr manager)) r in
                let r := set_userManagers
                           (<[user := manager]> (userManagers r)) r in
                updateManager user manager files r
            end
        end
      else r
  end.

(** The key the ring is asked about for a group: the statements of
    [loadRules] between [id := ...] and [hash := ringHasher.Sum32()],
    with the hasher as [loadRules] left it; [None] is the [continue]
    after a failed [Write]. *)
Definition groupHash (ringHasher : Fnv.sum32a) (g : RuleGroupDesc)
  : Fnv.sum32a * option Z :=
  let id := rg_User g +:+ "/" +:+ rg_Namespace g +:+ "/" +:+ rg_Name g in
  let ringHasher := Fnv.Reset ringHasher in
  let '(ringHasher, _, err) := Fnv.Write ringHasher (bytes_of_string id) in
  match err with
  | Some _ => (ringHasher, None)
  | None => (ringHasher, Some (Fnv.Sum32 ringHasher))
  end.

(** The inner loop of [loadRules] under sharding: the groups of one
    tenant that this ruler owns, or [None] when [ownsRule] failed and
    [loadRules] returns. *)
Fixpoint filterGroups (ringHasher : Fnv.sum32a) (groups : RuleGroupList)
    (filteredGroups : RuleGroupList) (r : Ruler)
  : Ruler * Fnv.sum32a * option RuleGroupList :=
  match groups with
  | [] => (r, ringHasher, Some filteredGroups)
  | g :: rest =>
      match groupHash ringHasher g with
      | (ringHasher, None) =>
          filterGroups ringHasher rest filteredGroups r
      | (ringHasher, Some hash) =>
          match ownsRule hash r with
          | (r, Err _) => (r, ringHasher, None)
          | (r, Ok owned) =>
              filterGroups ringHasher rest
                (if owned then filteredGroups ++ [g] else filteredGroups)
                r
          end
      end
  end.

(** The loop of [loadRules] over the tenants of the poll.  The second
    component is [false] when [loadRules] returned from inside the
    loop. *)
Fixpoint loadRules_loop (ringHasher : Fnv.sum32a)
    (configs : list (string * RuleGroupList)) (r : Ruler)
  : Ruler * bool :=
  match configs with
  | [] => (r, true)
  | (user, groups) :: rest =>
      if EnableSharding (cfg r) then
        match filterGroups ringHasher groups [] r with
        | (r, _, None) => (r, false)
        | (r, ringHasher, Some filteredGroups) =>
            loadRules_loop ringHasher rest
              (syncManager user filteredGroups r)
        end
      else loadRules_loop ringHasher rest (syncManager user groups r)
  end.

(** The body of the loop that removes deleted users:
    [go mngr.Stop()] and [delete(r.userManagers, user)]. *)
Definition deleteUser (configs : list (string * RuleGroupList))
    (r : Ruler) (entry : string * Manager) : Ruler :=
  if bool_decide (entry.1 ∈ configs.*1) then r
  else set_userManagers (delete entry.1 (userManagers r))
         (emit (EvManagerStop (mgr_ptr entry.2)) r).

(** The loop itself; Go visits the entries of the map in an order of
    its own, the model in that of [map_to_list]. *)
Definition deleteUsers (configs : list (string * RuleGroupList))
    (r : Ruler) : Ruler :=
  fold_left (deleteUser configs) (map_to_list (userManagers r)) r.

(** [loadRules]: one tick. *)
Definition loadRules (r : Ruler) : Ruler :=
  let ringHasher := Fnv.New32a in
  match ListAllRuleGroups E (log r) with
  | Err _ => emit (EvListAllRuleGroups false) r
  | Ok configs =>
      let r := emit (EvListAllRuleGroups true) r in
      match loadRules_loop ringHasher configs r with
      | (r, false) => r
      | (r, true) => deleteUsers configs r
      end
  end.

(** [run]: the load at start-up, then one load per tick until the
    context is done, [ticks] ticks later; the error it returns is
    nil. *)
Fixpoint run_loop (ticks : nat) (r : Ruler) : Ruler :=
  match ticks with
  | O => r
  | S ticks' => run_loop ticks' (loadRules r)
  end.

Definition run (ticks : nat) (r : Ruler) : Ruler * option string :=
  (run_loop ticks (loadRules r), None).

(** [stopping]: every notifier, the subservices when sharding started
    them, every manager. *)
Definition stopping (r : Ruler) : Ruler * option string :=
  let r := fold_left (fun r n => emit (EvNotifierStop (rn_notifier n.2)) r)
             (map_to_list (notifiers r)) r in
  let r := if EnableSharding (cfg r) then emit EvSubservicesStop r else r in
  let r := fold_left (fun r m => emit (EvManagerStop (mgr_ptr m.2)) r)
             (map_to_list (userManagers r)) r in
  (r, None).

(** *** Rule inspection *)

Definition lastErrorString (e : option string) : string :=
  match e with Some msg => msg | None => "" end.

Definition alertDesc (a : Alert) : AlertDesc :=
  {| ad_State := AlertState_String (alert_State a);
     ad_Labels := alert_Labels a;
     ad_Annotations := alert_Annotations a;
     ad_Value := alert_Value a;
     ad_ActiveAt := alert_ActiveAt a;
     ad_FiredAt := alert_FiredAt a;
     ad_ResolvedAt := alert_ResolvedAt a;
     ad_LastSentAt := alert_LastSentAt a;
     ad_ValidUntil := alert_ValidUntil a |}.

(** The type switch of [getLocalRules]. *)
Definition ruleDesc (r : Rule) : result RuleDesc :=
  match r with
  | IsAlertingRule rule =>
      Ok {| rd_Expr := ar_Query rule;
            rd_Record := "";
            rd_Alert := ar_Name rule;
            rd_For := ar_Duration rule;
            rd_Labels := ar_Labels rule;
            rd_Annotations := ar_Annotations rule;
            rd_State := AlertState_String (ar_State rule);
            rd_Health := ar_Health rule;
            rd_LastError := lastErrorString (ar_LastError rule);
            rd_Alerts := map alertDesc (ar_ActiveAlerts rule);
            rd_EvaluationTimestamp := ar_EvaluationTimestamp rule;
            rd_EvaluationDuration := ar_EvaluationDuration rule |}
  | IsRecordingRule rule =>
      Ok {| rd_Expr := rr_Query rule;
            rd_Record := rr_Name rule;
            rd_Alert := "";
            rd_For := 0;
            rd_Labels := rr_Labels rule;
            rd_Annotations := [];
            rd_State := "";
            rd_Health := rr_Health rule;
            rd_LastError := lastErrorString (rr_LastError rule);
            rd_Alerts := [];
            rd_EvaluationTimestamp := rr_EvaluationTimestamp rule;
            rd_EvaluationDuration := rr_EvaluationDuration rule |}
  | IsOtherRule name _ =>
      Err ("failed to assert type of rule '" +:+ name +:+ "'")
  end.

Fixpoint ruleDescs (rules : list Rule) (acc : list RuleDesc)
  : result (list RuleDesc) :=
  match rules with
  | [] => Ok acc
  | r :: rest =>
      match ruleDesc r with
      | Err e => Err e
      | Ok d => ruleDescs rest (acc ++ [d])
      end
  end.

Fixpoint groupDescs_loop (userID prefix : string) (groups : list Group)
    (groupDescs : list RuleGroupDesc) : result (list RuleGroupDesc) :=
  match groups with
  | [] => Ok groupDescs
  | group :: rest =>
      match ruleDescs (grp_Rules group) [] with
      | Err e => Err e
      | Ok rules =>
          groupDescs_loop userID prefix rest
            (groupDescs ++
             [ {| rg_Name := grp_Name group;
                  rg_Namespace := TrimPrefix (grp_File group) prefix;
                  rg_Interval := grp_Interval group;
                  rg_Rules := rules;
                  rg_User := userID;
                  rg_EvaluationTimestamp := grp_EvaluationTimestamp group;
                  rg_EvaluationDuration := grp_EvaluationDuration group |} ])
      end
  end.

(** [getLocalRules]. *)
Definition getLocalRules (userID : string) (r : Ruler)
  : result (list RuleGroupDesc) :=
  let groups := match userManagers r !! userID with
                | Some mngr => mgr_groups mngr
                | None => []
                end in
  let prefix := filepath_Join E (RulePath (cfg r)) userID +:+ "/" in
  groupDescs_loop userID prefix groups [].

(** The loop of [getShardedRules] over the rulers of the ring. *)
Fixpoint getShardedRules_loop (ctx : Ctx) (rulers : list IngesterDesc)
    (rgs : list RuleGroupDesc) (r : Ruler)
  : Ruler * result (list RuleGroupDesc) :=
  match rulers with
  | [] => (r, Ok rgs)
  | rlr :: rest =>
      match grpc_Dial E (log r) (Addr rlr) with
      | Some err => (emit (EvDial (Addr rlr) false) r, Err err)
      | None =>
          let r := emit (EvDial (Addr rlr) true) r in
          match client_Rules E (log r) (Addr rlr) ctx with
          | Err err =>
              (emit (EvRules (Addr rlr) ctx false) r,
               Err ("unable to retrieve rules from other rulers, " +:+ err))
          | Ok newGrps =>
              getShardedRules_loop ctx rest (rgs ++ newGrps)
                (emit (EvRules (Addr rlr) ctx true) r)
          end
      end
  end.

(** [getShardedRules]; its [userID] is not used, the tenant travels in
    [ctx]. *)
Definition getShardedRules (ctx : Ctx) (userID : string) (r : Ruler)
  : Ruler * result (list RuleGroupDesc) :=
  match ring_GetAll E (log r) with
  | Err err => (emit (EvRingGetAll false) r, Err err)
  | Ok rulers =>
      let r := emit (EvRingGetAll true) r in
      match InjectIntoGRPCRequest E ctx with
      | Err err =>
          (r, Err ("unable to inject user ID into grpc request, " +:+ err))
      | Ok ctx =>
          getShardedRules_loop ctx rulers []
            (emit (EvInjectIntoGRPCRequest ctx) r)
      end
  end.

(** [GetRules]. *)
Definition GetRules (ctx : Ctx) (userID : string) (r : Ruler)
  : Ruler * result (list RuleGroupDesc) :=
  if EnableSharding (cfg r) then getShardedRules ctx userID r
  else (r, getLocalRules userID r).

(** [Rules], the gRPC handler: [user.ExtractOrgID] fails on a context
    without tenant. *)
Definition Rules (ctx : Ctx) (r : Ruler) : result (list RuleGroupDesc) :=
  match ctx_orgID ctx with
  | None => Err "no user id found in context"
  | Some userID => getLocalRules userID r
  end.

End RulerCode.

(** [NewRuler]: empty maps, counters at zero. *)
Definition NewRuler (c : Config) (d : Disk) : Ruler :=
  {| cfg := c; userManagers := ∅; notifiers := ∅; ringCheckErrors := O;
     configUpdatesTotal := ∅; disk := d; nextPtr := O; log := [] |}.

(** ** The shard key as the specification words it *)

(** FNV-1a, 32 bits: start from the offset basis; for each octet, xor it
    into the hash, then multiply by the FNV prime modulo [2^32]. *)
Definition fnv1a32 (octets : list Z) : Z :=
  fold_left (fun h o => (Z.lxor h o * 16777619) mod 4294967296)
            octets 2166136261.

(** [tenant + "/" + namespace + "/" + name]. *)
Definition shardKeyString (tenant namespace name : string) : string :=
  tenant +:+ "/" +:+ namespace +:+ "/" +:+ name.

Definition ShardKey (tenant namespace name : string) : Z :=
  fnv1a32 (bytes_of_string (shardKeyString tenant namespace name)).

(** ** Vocabulary for the statements *)

(** Events of a tick that are neither the poll nor the stop of a
    notifier nor part of an inspection. *)
Definition sync_event (e : Event) : bool :=
  match e with
  | EvRingGet _ _ | EvRingCheckErrorsInc | EvMapRules _ _ _
  | EvConfigUpdatesInc _ | EvNewRulerNotifier _ _ | EvNotifierRun _
  | EvApplyConfig _ _ | EvNewManager _ _ | EvManagerRun _
  | EvManagerUpdate _ _ _ | EvManagerStop _ => true
  | _ => false
  end.

(** Events of the ring check. *)
Definition ring_event (e : Event) : bool :=
  match e with
  | EvRingGet _ _ | EvRingCheckErrorsInc => true
  | _ => false
  end.

(** [r'] extends the history of [r] by events that satisfy [P]. *)
Definition extends (P : Event -> bool) (r r' : Ruler) : Prop :=
  exists evs, log r' = log r ++ evs /\ forallb P evs = true.

(** Events of a sync that do not come from the ring check. *)
Definition tenant_event (e : Event) : bool :=
  sync_event e && negb (ring_event e).

(** [r'] differs from [r] only in what belongs to the tenants of [U]:
    the configuration is that of [r], the maps agree outside [U], and
    the history grew by events that satisfy [P]. *)
Record touches (P : Event -> bool) (U : list string) (r r' : Ruler)
  : Prop := {
  t_cfg : cfg r' = cfg r;
  t_managers : forall v, v ∉ U -> userManagers r' !! v = userManagers r !! v;
  t_notifiers : forall v, v ∉ U -> notifiers r' !! v = notifiers r !! v;
  t_updates : forall v, v ∉ U ->
              configUpdatesTotal r' !! v = configUpdatesTotal r !! v;
  t_log : extends P r r'
}.

(** [r'] is [r] but for the history, the ring counter and the next
    free address. *)
Definition same_maps (r r' : Ruler) : Prop :=
  cfg r' = cfg r /\ userManagers r' = userManagers r /\
  notifiers r' = notifiers r /\
  configUpdatesTotal r' = configUpdatesTotal r /\ disk r' = disk r.

Definition ring_ok (e : Event) : bool :=
  match e with EvRingGet _ true => true | _ => false end.

Definition is_stop (e : Event) : bool :=
  match e with EvManagerStop _ => true | _ => false end.

(** The polls of the rule store in a history. *)
Definition is_poll (e : Event) : bool :=
  match e with EvListAllRuleGroups _ => true | _ => false end.


(** The address an event is about. *)
Definition ptr_of (e : Event) : option nat :=
  match e with
  | EvNewRulerNotifier p _ | EvNotifierRun p | EvApplyConfig p _
  | EvNotifierStop p | EvNewManager p _ | EvManagerRun p
  | EvManagerUpdate p _ _ | EvManagerStop p => Some p
  | _ => None
  end.

(** The calls of [applyConfig] on the notifier at [p] in a history. *)
Definition applied_to (p : nat) (e : Event) : bool :=
  match e with EvApplyConfig q _ => Nat.eqb p q | _ => false end.

Definition applyConfig_calls (p : nat) (h : History) : nat :=
  length (List.filter (applied_to p) h).

(** The notifier pool is well formed: every address of the history has
    been allocated; a notifier of the map is stored under the tenant it
    was made for and had [applyConfig] called on it once; two tenants do
    not share a notifier. *)
Definition notifiers_wf (r : Ruler) : Prop :=
  (forall e p, e ∈ log r -> ptr_of e = Some p -> (p < nextPtr r)%nat)
  /\ (forall u n, notifiers r !! u = Some n ->
        rn_userID n = u /\ (rn_notifier n < nextPtr r)%nat /\
        applyConfig_calls (rn_notifier n) (log r) = 1%nat)
  /\ (forall u v n n', notifiers r !! u = Some n -> notifiers r !! v = Some n' ->
        rn_notifier n = rn_notifier n' -> u = v).

(** Calls to a peer made with the context [ctx]. *)
Definition peer_call (ctx : Ctx) (e : Event) : Prop :=
  match e with
  | EvDial _ _ => True
  | EvRules _ c _ => c = ctx
  | _ => False
  end.

(** Calls of an inspection that failed. *)
Definition failed_call (e : Event) : bool :=
  match e with
  | EvDial _ false | EvRules _ _ false | EvRingGetAll false => true
  | _ => false
  end.

(** Events of the creation or the update of an evaluator. *)
Definition evaluator_event (e : Event) : bool :=
  match e with
  | EvNewRulerNotifier _ _ | EvNotifierRun _ | EvApplyConfig _ _
  | EvNewManager _ _ | EvManagerRun _ | EvManagerUpdate _ _ _ => true
  | _ => false
  end.

(** Every registered evaluator lives at an allocated address. *)
Definition managers_wf (r : Ruler) : Prop :=
  forall u m, userManagers r !! u = Some m -> (mgr_ptr m < nextPtr r)%nat.

Definition pool_wf (r : Ruler) : Prop := notifiers_wf r /\ managers_wf r.

Ltac break_match :=
  match goal with
  | |- context [match ?x with _ => _ end] => destruct x eqn:?
  | H : context [match ?x with _ => _ end] |- _ => destruct x eqn:?
  end.

(** ** A small deployment to run the model on *)
Module Scenario.

Definition config (sharding : bool) : Config :=
  {| EvaluationInterval := 60000000000; RulePath := "/rules";
     NotificationQueueCapacity := 10000; EnableSharding := sharding;
     alertURL := "http://ruler" |}.

Definition group (user namespace name : string) : RuleGroupDesc :=
  {| rg_Name := name; rg_Namespace := namespace; rg_Interval := 0;
     rg_Rules := []; rg_User := user; rg_EvaluationTimestamp := 0;
     rg_EvaluationDuration := 0 |}.

Definition ruleFile (user : string) (g : RuleGroupDesc) : string :=
  "/rules/" +:+ user +:+ "/" +:+ rg_Namespace g.

(** Collaborators that answer the same at every moment: the store
    answers [poll]; the ring has this ruler own every key, and fails on
    the keys of [ringDown]; the mapper writes one file per group and
    reports a change when there is a group; [applyConfig] and [Update]
    fail when told to; every peer answers no group. *)
Definition env (poll : result (list (string * RuleGroupList)))
    (ringDown : Z -> bool) (applyFails updateFails : bool) : Env :=
  {| ListAllRuleGroups := fun _ => poll;
     ring_Get := fun _ hash =>
       if ringDown hash then Err "ring unavailable"
       else Ok {| rs_first := {| Addr := "self" |}; rs_rest := [] |};
     ring_GetAll := fun _ =>
       Ok [ {| Addr := "self" |}; {| Addr := "peer" |} ];
     lifecycler_Addr := "self";
     MapRules := fun _ user groups d =>
       (foldr (fun g d => <[ruleFile user g := rg_Name g]> d) d groups,
        Ok (negb (bool_decide (groups = [])), map (ruleFile user) groups));
     applyConfig := fun _ _ =>
       if applyFails then Some "invalid notifier config" else None;
     manager_Update := fun _ _ _ _ =>
       if updateFails then Err "error loading rules" else Ok [];
     InjectIntoGRPCRequest := fun ctx =>
       match ctx_orgID ctx with
       | None => Err "no org id"
       | Some u => Ok {| ctx_orgID := Some u; ctx_grpcOrgID := Some u |}
       end;
     grpc_Dial := fun _ _ => None;
     client_Rules := fun _ _ _ => Ok [];
     TableLinkForExpression := fun expr => "/graph?g0.expr=" +:+ expr;
     filepath_Join := fun a b => a +:+ "/" +:+ b |}.

Definition tenantA : string * RuleGroupList := ("a", [group "a" "ns" "g1"]).
Definition tenantB : string * RuleGroupList := ("b", [group "b" "ns" "g2"]).

(** The ring fails on the key of tenant b's group only. *)
Definition ringDownForB (hash : Z) : bool := hash =? ShardKey "b" "ns" "g2".

Definition ringUp (hash : Z) : bool := false.

(** A tick in which the ring fails while tenant b is examined, after
    tenant a passed. *)
Definition abortEnv : Env := env (Ok [tenantA; tenantB]) ringDownForB false false.

Definition fresh : Ruler := NewRuler (config true) ∅.



(** A first tick that brought tenant z, and a second that brings tenant
    b only, either with the ring failing or with the ring answering. *)
Definition tenantZ : string * RuleGroupList := ("z", [group "z" "ns" "g0"]).

Definition withZ : Ruler :=
  loadRules (env (Ok [tenantZ]) ringUp false false) fresh.



Definition onlyB_ringUp : Env := env (Ok [tenantB]) ringUp false false.

(** The mapper reports a change for tenant a and [Update] fails. *)
Definition updateFailsEnv : Env := env (Ok [tenantA]) ringUp false true.


End Scenario.

(** ** Further vocabulary *)

(** The key of a group, as [ShardKey] of its three fields. *)
Definition groupKey (g : RuleGroupDesc) : Z :=
  ShardKey (rg_User g) (rg_Namespace g) (rg_Name g).

(** What [ownsRule] answers for a group when the ring answers [ring]. *)
Definition ownedBySelf (E : Env) (ring : Z -> result ReplicationSet)
    (g : RuleGroupDesc) : bool :=
  match ring (groupKey g) with
  | Ok rlrs => String.eqb (Addr (rs_first rlrs)) (lifecycler_Addr E)
  | Err _ => false
  end.

Definition ringFailsOn (ring : Z -> result ReplicationSet)
    (g : RuleGroupDesc) : bool :=
  is_err (ring (groupKey g)).

(** The rule types the type switch of [getLocalRules] knows. *)
Definition knownRule (r : Rule) : bool :=
  match r with IsOtherRule _ _ => false | _ => true end.

(** The tenant and the groups of a call of the mapper. *)
Definition mapped (e : Event) : option (string * RuleGroupList) :=
  match e with EvMapRules user groups _ => Some (user, groups) | _ => None end.

(** Every registered evaluator runs, was made for the tenant it is
    stored under, and notifies through the notifier of that tenant. *)
Definition registry_wf (r : Ruler) : Prop :=
  forall u m, userManagers r !! u = Some m ->
    mgr_running m = true /\ mgr_userID m = u /\
    exists n, notifiers r !! u = Some n /\ rn_notifier n = mgr_notifier m.

(** The events of a tick: its poll and what the sync does. *)
Definition tick_event (e : Event) : bool := is_poll e || sync_event e.

(** [r'] has every notifier of [r], under the same tenant. *)
Definition keeps_notifiers (r r' : Ruler) : Prop :=
  forall u n, notifiers r !! u = Some n -> notifiers r' !! u = Some n.

(** No counter of [r'] is below that of [r]. *)
Definition counters_grow (r r' : Ruler) : Prop :=
  (ringCheckErrors r <= ringCheckErrors r')%nat /\
  forall u, (configUpdates r u <= configUpdates r' u)%nat.

(** The groups [getLocalRules] describes: those the evaluator of the
    tenant runs, none when the tenant has no evaluator. *)
Definition runningGroups (r : Ruler) (userID : string) : list Group :=
  match userManagers r !! userID with
  | Some mngr => mgr_groups mngr
  | None => []
  end.

(** The directory prefix [getLocalRules] strips from the file of a
    group. *)
Definition rulePrefix (E : Env) (r : Ruler) (userID : string) : string :=
  filepath_Join E (RulePath (cfg r)) userID +:+ "/".

(** What [syncManager] may do after the mapper answered: count the
    update, and create or update the evaluator. *)
Definition after_mapper (e : Event) : bool :=
  match e with
  | EvConfigUpdatesInc _ => true
  | _ => evaluator_event e
  end.

(** An answer of the mapper that is an error or reports no change. *)
Definition no_change (res : result (bool * list string)) : bool :=
  match res with Ok (true, _) => false | _ => true end.

(** No two tenants share an evaluator. *)
Definition registry_inj (r : Ruler) : Prop :=
  forall u v m m', userManagers r !! u = Some m ->
    userManagers r !! v = Some m' -> mgr_ptr m = mgr_ptr m' -> u = v.

(** ** Further cases to run the model on *)
Module Cases.

(** The mapper cannot write. *)
Definition mapperFailsEnv : Env :=
  {| ListAllRuleGroups := fun _ => Ok [Scenario.tenantA];
     ring_Get := ring_Get Scenario.abortEnv;
     ring_GetAll := ring_GetAll Scenario.abortEnv;
     lifecycler_Addr := "self";
     MapRules := fun _ _ _ d => (d, Err "read-only file system");
     applyConfig := applyConfig Scenario.abortEnv;
     manager_Update := manager_Update Scenario.abortEnv;
     InjectIntoGRPCRequest := InjectIntoGRPCRequest Scenario.abortEnv;
     grpc_Dial := grpc_Dial Scenario.abortEnv;
     client_Rules := client_Rules Scenario.abortEnv;
     TableLinkForExpression := TableLinkForExpression Scenario.abortEnv;
     filepath_Join := filepath_Join Scenario.abortEnv |}.

(** A healthy deployment whose poll brings tenants a and b. *)
Definition healthyEnv : Env :=
  Scenario.env (Ok [Scenario.tenantA; Scenario.tenantB]) Scenario.ringUp
    false false.

(** The ring of [Scenario.abortEnv], whatever the history. *)
Definition ringOfAbort (hash : Z) : result ReplicationSet :=
  if Scenario.ringDownForB hash then Err "ring unavailable"
  else Ok {| rs_first := {| Addr := "self" |}; rs_rest := [] |}.

(** A ruler whose evaluator for tenant a runs one group, loaded from the
    file of namespace ns1, with one recording rule. *)
Definition recorded : RecordingRule :=
  {| rr_Name := "job:up:sum"; rr_Query := "sum(up) by (job)";
     rr_Labels := []; rr_Health := "ok"; rr_LastError := None;
     rr_EvaluationTimestamp := 5; rr_EvaluationDuration := 1 |}.

Definition runningGroup : Group :=
  {| grp_Name := "g1"; grp_File := "/rules/a/ns1"; grp_Interval := 60;
     grp_Rules := [IsRecordingRule recorded];
     grp_EvaluationTimestamp := 5; grp_EvaluationDuration := 1 |}.

Definition inspected : Ruler :=
  set_userManagers
    {[ "a" := {| mgr_ptr := 1; mgr_userID := "a";
                 mgr_ExternalURL := "http://ruler"; mgr_notifier := 0;
                 mgr_running := true; mgr_files := ["/rules/a/ns1"];
                 mgr_groups := [runningGroup] |} ]}
    Scenario.fresh.

End Cases.

(** ** Facts about the hasher *)

Lemma write_loop_fold (data : list Z) (h : Z) :
  Fnv.write_loop h data
  = fold_left (fun h o => (Z.lxor h o * 16777619) mod 4294967296) data h.
Proof.
  revert h. induction data as [|c data IH]; intros h; simpl; [reflexivity|].
  rewrite IH. reflexivity.
Qed.

Lemma fnv1a32_range (octets : list Z) : 0 <= fnv1a32 octets < 2 ^ 32.
Proof.
  unfold fnv1a32.
  assert (Hgen : forall l h, 0 <= h < 2 ^ 32 ->
            0 <= fold_left (fun h o => (Z.lxor h o * 16777619) mod 4294967296)
                   l h < 2 ^ 32).
  { induction l as [|o l IH]; intros h Hh; simpl; [exact Hh|].
    apply IH. change (2 ^ 32) with 4294967296.
    apply Z.mod_pos_bound. lia. }
  apply Hgen. split; [lia|]. reflexivity.
Qed.

(** The published test vectors of 32-bit FNV-1a. *)
Example fnv1a32_empty : fnv1a32 (bytes_of_string "") = 0x811c9dc5.
Proof. reflexivity. Qed.

Example fnv1a32_a : fnv1a32 (bytes_of_string "a") = 0xe40c292c.
Proof. reflexivity. Qed.

Example fnv1a32_foobar : fnv1a32 (bytes_of_string "foobar") = 0xbf9cf968.
Proof. reflexivity. Qed.

(** The hasher of [loadRules] on one group, after it hashed another. *)
Example groupHash_after_use :
  groupHash (Fnv.write_loop Fnv.New32a (bytes_of_string "b/ns/g2"))
    (Scenario.group "a" "ns" "g1")
  = (1592013091, Some 1592013091).
Proof. reflexivity. Qed.

(** ** How the functions change the ruler *)

Lemma extends_refl P r : extends P r r.
Proof. exists []. split; [by rewrite app_nil_r | done]. Qed.

Lemma extends_trans P r1 r2 r3 :
  extends P r1 r2 -> extends P r2 r3 -> extends P r1 r3.
Proof.
  intros (e1 & H1 & F1) (e2 & H2 & F2). exists (e1 ++ e2). split.
  - rewrite H2, H1. by rewrite <- app_assoc.
  - rewrite forallb_app, F1, F2. done.
Qed.

Lemma extends_emit P e r r' :
  P e = true -> extends P (emit e r) r' -> extends P r r'.
Proof.
  intros He (evs & H & F). exists (e :: evs). split.
  - rewrite H. simpl. by rewrite <- app_assoc.
  - simpl. by rewrite He, F.
Qed.

Lemma extends_weaken (P Q : Event -> bool) r r' :
  (forall e, P e = true -> Q e = true) -> extends P r r' -> extends Q r r'.
Proof.
  intros HPQ (evs & H & F). exists evs. split; [done|].
  rewrite forallb_forall in *. auto.
Qed.

Lemma touches_refl P U r : touches P U r r.
Proof. split; auto using extends_refl. Qed.

Lemma touches_trans P U r1 r2 r3 :
  touches P U r1 r2 -> touches P U r2 r3 -> touches P U r1 r3.
Proof.
  intros [] []. split; try congruence.
  - intros v Hv. rewrite t_managers1, t_managers0; auto.
  - intros v Hv. rewrite t_notifiers1, t_notifiers0; auto.
  - intros v Hv. rewrite t_updates1, t_updates0; auto.
  - eauto using extends_trans.
Qed.

Lemma touches_mono (P Q : Event -> bool) U V r r' :
  (forall e, P e = true -> Q e = true) ->
  (forall v, v ∈ U -> v ∈ V) -> touches P U r r' -> touches Q V r r'.
Proof. intros HPQ HUV []. split; eauto using extends_weaken. Qed.

Ltac solve_extends :=
  first [ apply extends_refl
        | eexists; split;
          [ simpl; rewrite <- ?app_assoc; reflexivity | reflexivity ] ].

Ltac other_key :=
  match goal with
  | H : ?v ∉ [?u] |- _ =>
      assert (u <> v) by (intros ->; apply H; apply list_elem_of_here)
  end.

Section Frames.

Variable E : Env.

Lemma ownsRule_ok hash r r' owned :
  ownsRule E hash r = (r', Ok owned) ->
  same_maps r r' /\ ringCheckErrors r' = ringCheckErrors r /\
  log r' = log r ++ [EvRingGet hash true].
Proof.
  unfold ownsRule, same_maps. intros H.
  repeat break_match; inversion H; subst; simpl; auto 10.
Qed.

Lemma ownsRule_err hash r r' err :
  ownsRule E hash r = (r', Err err) ->
  same_maps r r' /\ ringCheckErrors r' = S (ringCheckErrors r) /\
  log r' = log r ++ [EvRingGet hash false; EvRingCheckErrorsInc] /\
  ring_Get E (log r) hash = Err err.
Proof.
  unfold ownsRule, same_maps. intros H.
  repeat break_match; inversion H; subst; simpl.
  rewrite <- app_assoc. auto 10.
Qed.

(** The key of a group does not depend on what the hasher held. *)
Lemma groupHash_ShardKey (h : Fnv.sum32a) (g : RuleGroupDesc) :
  groupHash h g
  = (ShardKey (rg_User g) (rg_Namespace g) (rg_Name g),
     Some (ShardKey (rg_User g) (rg_Namespace g) (rg_Name g))).
Proof.
  unfold groupHash, Fnv.Write, Fnv.Reset, Fnv.Sum32, ShardKey,
    shardKeyString, fnv1a32.
  rewrite write_loop_fold. reflexivity.
Qed.

Lemma filterGroups_cons h g rest acc r :
  filterGroups E h (g :: rest) acc r
  = let key := ShardKey (rg_User g) (rg_Namespace g) (rg_Name g) in
    match ownsRule E key r with
    | (r, Err _) => (r, key, None)
    | (r, Ok owned) =>
        filterGroups E key rest (if owned then acc ++ [g] else acc) r
    end.
Proof. cbn [filterGroups]. rewrite groupHash_ShardKey. reflexivity. Qed.

Lemma filterGroups_spec groups :
  forall h acc r r' h' (res : option RuleGroupList),
  filterGroups E h groups acc r = (r', h', res) ->
  same_maps r r' /\
  match res with
  | Some _ =>
      ringCheckErrors r' = ringCheckErrors r /\
      exists evs, log r' = log r ++ evs /\ forallb ring_ok evs = true
  | None =>
      ringCheckErrors r' = S (ringCheckErrors r) /\
      exists evs hash,
        log r' = log r ++ evs ++ [EvRingGet hash false; EvRingCheckErrorsInc]
        /\ forallb ring_ok evs = true
  end.
Proof.
  induction groups as [|g rest IH]; intros h acc r r' h' res H.
  - simpl in H. inversion H; subst. unfold same_maps.
    split; [auto 10|]. split; [done|]. exists []. by rewrite app_nil_r.
  - rewrite filterGroups_cons in H. cbv zeta in H.
    destruct (ownsRule E _ r) as [r1 [owned|err]] eqn:Ho.
    + apply ownsRule_ok in Ho as (Hm1 & Hc1 & Hl1).
      apply IH in H as (Hm & Hres).
      split.
      { unfold same_maps in *. intuition congruence. }
      destruct res.
      * destruct Hres as (Hc & evs & Hl & Hf). split; [congruence|].
        eexists (_ :: evs). split.
        { rewrite Hl, Hl1, <- app_assoc. reflexivity. }
        simpl. exact Hf.
      * destruct Hres as (Hc & evs & hash & Hl & Hf). split; [congruence|].
        eexists (_ :: evs), hash. split.
        { rewrite Hl, Hl1, <- app_assoc. reflexivity. }
        simpl. exact Hf.
    + inversion H; subst.
      apply ownsRule_err in Ho as (Hm1 & Hc1 & Hl1 & _).
      split; [done|]. split; [done|].
      exists [], (ShardKey (rg_User g) (rg_Namespace g) (rg_Name g)).
      split; [exact Hl1 | done].
Qed.


Lemma getOrCreateNotifier_touches userID r r' res :
  getOrCreateNotifier E userID r = (r', res) ->
  touches tenant_event [userID] r r' /\
  userManagers r' = userManagers r /\
  configUpdatesTotal r' = configUpdatesTotal r /\ disk r' = disk r.
Proof.
  unfold getOrCreateNotifier. intros H.
  destruct (notifiers r !! userID) as [n|] eqn:Hn.
  { inversion H; subst. auto using touches_refl. }
  simpl in H. destruct (applyConfig E _ _) as [err|];
    inversion H; subst; simpl; (split; [split|auto]); simpl; auto;
    try solve_extends.
  intros v Hv. other_key. by rewrite lookup_insert_ne.
Qed.

Lemma newManager_touches userID r r' res :
  newManager E userID r = (r', res) ->
  touches tenant_event [userID] r r' /\
  userManagers r' = userManagers r /\
  configUpdatesTotal r' = configUpdatesTotal r /\ disk r' = disk r.
Proof.
  unfold newManager. intros H.
  destruct (getOrCreateNotifier E userID r) as [r1 [p|err]] eqn:Hg;
    apply getOrCreateNotifier_touches in Hg as (Ht & Hm & Hc & Hd);
    simpl in H; inversion H; subst; [|auto].
  simpl. split; [|auto].
  eapply touches_trans; [exact Ht|].
  split; simpl; auto. solve_extends.
Qed.

Lemma updateManager_touches user manager files r :
  touches tenant_event [user] r (updateManager E user manager files r) /\
  configUpdatesTotal (updateManager E user manager files r)
  = configUpdatesTotal r /\
  disk (updateManager E user manager files r) = disk r.
Proof.
  unfold updateManager.
  destruct (manager_Update E _ _ _ _) as [groups|err]; simpl;
    (split; [split|auto]); simpl; auto; try solve_extends.
  intros v Hv. other_key. by rewrite lookup_insert_ne.
Qed.

Lemma syncManager_touches user groups r :
  touches tenant_event [user] r (syncManager E user groups r).
Proof.
  unfold syncManager.
  destruct (MapRules E _ _ _ _) as [d [[update files]|err]].
  2:{ split; simpl; auto. solve_extends. }
  destruct update.
  2:{ split; simpl; auto. solve_extends. }
  set (r0 := configUpdatesTotal_Inc user _).
  assert (H0 : touches tenant_event [user] r r0).
  { subst r0. split; simpl; auto; [|solve_extends].
    intros v Hv. other_key. by rewrite lookup_insert_ne. }
  destruct (userManagers r0 !! user) as [manager|].
  { eapply touches_trans; [exact H0|]. apply updateManager_touches. }
  destruct (newManager E user r0) as [r1 [manager|err]] eqn:Hn;
    apply newManager_touches in Hn as (Ht & _).
  2:{ eapply touches_trans; eauto. }
  eapply touches_trans; [exact H0|].
  eapply touches_trans; [exact Ht|].
  eapply touches_trans; [|apply updateManager_touches].
  split; simpl; auto; [|solve_extends].
  intros v Hv. other_key. by rewrite lookup_insert_ne.
Qed.

Lemma ring_ok_sync evs :
  forallb ring_ok evs = true -> forallb sync_event evs = true.
Proof.
  rewrite !forallb_forall. intros H e He. specialize (H e He).
  destruct e as [| ? [] | | | | | | | | | | | | | | | |]; done.
Qed.

Lemma filterGroups_touches U h groups acc r r' h' res :
  filterGroups E h groups acc r = (r', h', res) ->
  touches sync_event U r r'.
Proof.
  intros H. apply filterGroups_spec in H as ((Hc & Hm & Hn & Hu & _) & Hres).
  split; try congruence.
  destruct res.
  - destruct Hres as (_ & evs & Hl & Hf). exists evs.
    split; [done | by apply ring_ok_sync].
  - destruct Hres as (_ & evs & hash & Hl & Hf). eexists. split; [exact Hl|].
    rewrite forallb_app, (ring_ok_sync _ Hf). reflexivity.
Qed.

Lemma tenant_event_sync e : tenant_event e = true -> sync_event e = true.
Proof. unfold tenant_event. by intros [? _]%andb_prop. Qed.

(** The loop over the tenants touches only the tenants of the poll. *)
Lemma loadRules_loop_touches configs : forall h r r' b,
  loadRules_loop E h configs r = (r', b) ->
  touches sync_event configs.*1 r r'.
Proof.
  induction configs as [|[user groups] rest IH]; intros h r r' b H.
  - inversion H; subst. apply touches_refl.
  - cbn [loadRules_loop] in H.
    assert (Hrest : forall v, v ∈ rest.*1 -> v ∈ ((user, groups) :: rest).*1).
    { intros v Hv. simpl. by apply list_elem_of_further. }
    assert (Huser : forall v, v ∈ [user] -> v ∈ ((user, groups) :: rest).*1).
    { intros v Hv%list_elem_of_singleton. subst. simpl.
      apply list_elem_of_here. }
    assert (Hsync : forall groups' r0,
              touches sync_event ((user, groups) :: rest).*1 r0
                (syncManager E user groups' r0)).
    { intros. eapply touches_mono;
        [apply tenant_event_sync | exact Huser | apply syncManager_touches]. }
    destruct (EnableSharding (cfg r)).
    + destruct (filterGroups E h groups [] r) as [[r1 h1] [filtered|]] eqn:Hf;
        apply (filterGroups_touches ((user, groups) :: rest).*1) in Hf.
      * eapply touches_trans; [exact Hf|].
        eapply touches_trans; [apply Hsync|].
        eapply touches_mono; [done | exact Hrest | eapply IH; exact H].
      * inversion H; subst. exact Hf.
    + eapply touches_trans; [apply Hsync|].
      eapply touches_mono; [done | exact Hrest | eapply IH; exact H].
Qed.

(** Without sharding the loop runs to its end. *)
Lemma loadRules_loop_unsharded configs : forall h r,
  EnableSharding (cfg r) = false ->
  (loadRules_loop E h configs r).2 = true.
Proof.
  induction configs as [|[user groups] rest IH]; intros h r Hs; [done|].
  cbn [loadRules_loop]. rewrite Hs. apply IH.
  by rewrite (t_cfg _ _ _ _ (syncManager_touches user groups r)).
Qed.



Lemma deleteUser_step configs r k m :
  let r1 := deleteUser configs r (k, m) in
  cfg r1 = cfg r /\ notifiers r1 = notifiers r /\ disk r1 = disk r /\
  ringCheckErrors r1 = ringCheckErrors r /\
  configUpdatesTotal r1 = configUpdatesTotal r /\
  (forall u, userManagers r1 !! u
             = if bool_decide (u ∈ configs.*1) then userManagers r !! u
               else if bool_decide (u = k) then None
               else userManagers r !! u) /\
  log r1 = log r ++ (if bool_decide (k ∈ configs.*1) then []
                     else [EvManagerStop (mgr_ptr m)]).
Proof.
  unfold deleteUser. cbn [fst snd]. cbv zeta.
  case_bool_decide as Hk; simpl.
  - repeat split; auto; [|by rewrite app_nil_r].
    intros u. repeat case_bool_decide; subst; done.
  - repeat split; auto.
    intros u. destruct (decide (u = k)) as [->|Hne];
      [rewrite lookup_delete_eq | rewrite lookup_delete_ne by done];
      repeat case_bool_decide; done.
Qed.

(** The loop that removes deleted users, over any list of entries. *)
Lemma deleteUser_fold configs (l : list (string * Manager)) : forall r,
  let r' := fold_left (deleteUser configs) l r in
  cfg r' = cfg r /\ notifiers r' = notifiers r /\ disk r' = disk r /\
  ringCheckErrors r' = ringCheckErrors r /\
  configUpdatesTotal r' = configUpdatesTotal r /\
  (forall u, userManagers r' !! u
             = if bool_decide (u ∈ configs.*1) then userManagers r !! u
               else if bool_decide (u ∈ l.*1) then None
               else userManagers r !! u) /\
  exists evs, log r' = log r ++ evs /\ forallb is_stop evs = true /\
    forall u m, (u, m) ∈ l -> u ∉ configs.*1 ->
                EvManagerStop (mgr_ptr m) ∈ evs.
Proof.
  induction l as [|[k m] l IH]; intros r; cbn [fold_left].
  - cbv zeta. repeat split; auto.
    + intros u. cbn [fmap list_fmap].
      repeat case_bool_decide; auto.
      match goal with H : u ∈ [] |- _ => by apply elem_of_nil in H end.
    + exists []. rewrite app_nil_r. repeat split; auto.
      intros u m Hin. by apply elem_of_nil in Hin.
  - specialize (IH (deleteUser configs r (k, m))). cbv zeta in *.
    destruct IH as (Hc & Hn & Hd & Hr & Hu & Hlook & evs & Hl & Hf & Hin).
    destruct (deleteUser_step configs r k m)
      as (Hc1 & Hn1 & Hd1 & Hr1 & Hu1 & Hlook1 & Hl1).
    repeat split; try congruence.
    + intros u. rewrite Hlook, Hlook1, fmap_cons. cbn [fst].
      destruct (decide (u ∈ configs.*1)) as [Hu'|Hu'].
      { by rewrite !(bool_decide_eq_true_2 _ Hu'). }
      rewrite !(bool_decide_eq_false_2 _ Hu').
      destruct (decide (u = k)) as [->|Hne].
      { rewrite (bool_decide_eq_true_2 (k = k)) by done.
        rewrite (bool_decide_eq_true_2 (k ∈ k :: l.*1))
          by apply list_elem_of_here.
        by destruct (bool_decide (k ∈ l.*1)). }
      rewrite (bool_decide_eq_false_2 (u = k)) by done.
      destruct (decide (u ∈ l.*1)) as [Hl'|Hl'].
      { rewrite (bool_decide_eq_true_2 _ Hl').
        rewrite bool_decide_eq_true_2; [done|].
        by apply list_elem_of_further. }
      rewrite (bool_decide_eq_false_2 _ Hl').
      rewrite bool_decide_eq_false_2; [done|].
      by intros [?|?]%elem_of_cons.
    + eexists. repeat split.
      * rewrite Hl, Hl1, <- app_assoc. reflexivity.
      * rewrite forallb_app, Hf. by case_bool_decide.
      * intros u m' [Heq|Hin']%elem_of_cons Hnot.
        -- inversion Heq; subst. rewrite bool_decide_eq_false_2 by done.
           apply list_elem_of_here.
        -- apply elem_of_app. right. eauto.
Qed.

Lemma deleteUsers_spec configs r :
  let r' := deleteUsers configs r in
  cfg r' = cfg r /\ notifiers r' = notifiers r /\ disk r' = disk r /\
  ringCheckErrors r' = ringCheckErrors r /\
  configUpdatesTotal r' = configUpdatesTotal r /\
  (forall u, userManagers r' !! u
             = if bool_decide (u ∈ configs.*1) then userManagers r !! u
               else None) /\
  exists evs, log r' = log r ++ evs /\ forallb is_stop evs = true /\
    forall u m, userManagers r !! u = Some m -> u ∉ configs.*1 ->
                EvManagerStop (mgr_ptr m) ∈ evs.
Proof.
  unfold deleteUsers. cbv zeta.
  destruct (deleteUser_fold configs (map_to_list (userManagers r)) r)
    as (Hc & Hn & Hd & Hr & Hu & Hlook & evs & Hl & Hf & Hin).
  repeat split; auto.
  - intros u. rewrite Hlook. repeat case_bool_decide; try done.
    apply eq_None_not_Some. intros [m Hm].
    match goal with H : u ∉ _ |- _ => apply H end.
    apply list_elem_of_fmap. exists (u, m). split; [done|].
    by apply elem_of_map_to_list.
  - exists evs. repeat split; auto.
    intros u m Hm. apply Hin. by apply elem_of_map_to_list.
Qed.

End Frames.

(** ** The shard key *)

(** C8: for every rule group, and whatever the hasher held before, the key
    [loadRules] computes is the 32-bit FNV-1a hash of the bytes of
    tenant + "/" + namespace + "/" + name; it is a 32-bit value, two groups
    that agree on these three fields get the same key, and it is the key
    the ring is asked about. *)
Theorem C8_shard_key_is_fnv1a (E : Env) (h : Fnv.sum32a) (g : RuleGroupDesc) :
  (groupHash h g).2 = Some (ShardKey (rg_User g) (rg_Namespace g) (rg_Name g))
  /\ 0 <= ShardKey (rg_User g) (rg_Namespace g) (rg_Name g) < 2 ^ 32
  /\ (forall h' g',
        rg_User g' = rg_User g -> rg_Namespace g' = rg_Namespace g ->
        rg_Name g' = rg_Name g ->
        (groupHash h' g').2 = (groupHash h g).2)
  /\ (forall rest acc r, exists ok evs,
        log (filterGroups E h (g :: rest) acc r).1.1
        = log r ++ EvRingGet (ShardKey (rg_User g) (rg_Namespace g)
                                       (rg_Name g)) ok :: evs).
Proof.
  split; [by rewrite groupHash_ShardKey|].
  split; [apply fnv1a32_range|].
  split.
  { intros h' g' Hu Hn Hname. rewrite !groupHash_ShardKey. simpl. congruence. }
  intros rest acc r. rewrite filterGroups_cons. cbv zeta.
  destruct (ownsRule E _ r) as [r1 [owned|err]] eqn:Ho.
  - apply ownsRule_ok in Ho as (_ & _ & Hl1).
    destruct (filterGroups E _ rest _ r1) as [[r2 h2] res] eqn:Hf.
    apply filterGroups_spec in Hf as (_ & Hres). simpl.
    exists true. destruct res.
    + destruct Hres as (_ & evs & Hl & _). exists evs.
      rewrite Hl, Hl1, <- app_assoc. reflexivity.
    + destruct Hres as (_ & evs & hash & Hl & _). eexists.
      rewrite Hl, Hl1, <- app_assoc. reflexivity.
  - apply ownsRule_err in Ho as (_ & _ & Hl1 & _). simpl.
    exists false. eexists. exact Hl1.
Qed.

(** ** Alerts handed to the notifier *)

Lemma sendAlerts_loop_spec tl url expr alerts : forall res,
  sendAlerts_loop tl url expr alerts res
  = res ++ map (toNotifierAlert tl url expr)
             (filter (fun a => alert_State a <> StatePending) alerts).
Proof.
  induction alerts as [|alert rest IH]; intros res; cbn [sendAlerts_loop].
  - by rewrite filter_nil, app_nil_r.
  - destruct (alert_State alert) eqn:Hs.
    + rewrite filter_cons_True by (rewrite Hs; done).
      rewrite IH, <- app_assoc. reflexivity.
    + rewrite filter_cons_False by (rewrite Hs; intros H; by apply H).
      apply IH.
    + rewrite filter_cons_True by (rewrite Hs; done).
      rewrite IH, <- app_assoc. reflexivity.
Qed.



(** ** Local inspection *)

(** C9: for a tenant with no evaluator in the registry, [getLocalRules]
    answers the empty list and no error; a registered evaluator that runs
    no group gets the same answer, so the answer does not tell the two
    apart. *)
Theorem C9_unknown_tenant_has_no_rules (E : Env) (userID : string)
    (r : Ruler) :
  userManagers r !! userID = None ->
  getLocalRules E userID r = Ok []
  /\ forall m, mgr_groups m = [] ->
       getLocalRules E userID
         (set_userManagers (<[userID := m]> (userManagers r)) r)
       = getLocalRules E userID r.
Proof.
  intros Hnone. unfold getLocalRules. rewrite Hnone. split; [reflexivity|].
  intros m Hm. simpl. rewrite lookup_insert_eq, Hm. reflexivity.
Qed.

(** A new ruler knows no tenant: any tenant gets the empty list. *)
Lemma C9_unknown_tenant_witness :
  getLocalRules (Scenario.env (Ok []) Scenario.ringUp false false) "nobody"
    (NewRuler (Scenario.config false) ∅) = Ok [].
Proof.
  apply (C9_unknown_tenant_has_no_rules
           (Scenario.env (Ok []) Scenario.ringUp false false) "nobody"
           (NewRuler (Scenario.config false) ∅)).
  reflexivity.
Defined.

(** ** A poll that fails *)









(** ** A ring check that fails *)

Section RingCounter.

Variable E : Env.

Lemma getOrCreateNotifier_ring userID r :
  ringCheckErrors (getOrCreateNotifier E userID r).1 = ringCheckErrors r.
Proof.
  unfold getOrCreateNotifier. destruct (notifiers r !! userID); [done|].
  simpl. by destruct (applyConfig E _ _).
Qed.

Lemma newManager_ring userID r :
  ringCheckErrors (newManager E userID r).1 = ringCheckErrors r.
Proof.
  unfold newManager. pose proof (getOrCreateNotifier_ring userID r) as H.
  destruct (getOrCreateNotifier E userID r) as [r1 [p|err]]; exact H.
Qed.

Lemma updateManager_ring user manager files r :
  ringCheckErrors (updateManager E user manager files r) = ringCheckErrors r.
Proof. unfold updateManager. by destruct (manager_Update E _ _ _ _). Qed.

Lemma syncManager_ring user groups r :
  ringCheckErrors (syncManager E user groups r) = ringCheckErrors r.
Proof.
  unfold syncManager.
  destruct (MapRules E _ _ _ _) as [d [[update files]|err]]; [|done].
  destruct update; [|done].
  set (r0 := configUpdatesTotal_Inc user _).
  assert (H0 : ringCheckErrors r0 = ringCheckErrors r) by done.
  destruct (userManagers r0 !! user) as [manager|].
  { by rewrite updateManager_ring. }
  pose proof (newManager_ring user r0) as Hn.
  destruct (newManager E user r0) as [r1 [manager|err]]; simpl in Hn;
    [|congruence].
  rewrite updateManager_ring. simpl. congruence.
Qed.

(** The loop over the tenants counts one ring error when it returns early
    and none when it runs to its end. *)
Lemma loadRules_loop_ring configs : forall h r r' b,
  loadRules_loop E h configs r = (r', b) ->
  ringCheckErrors r'
  = if b then ringCheckErrors r else S (ringCheckErrors r).
Proof.
  induction configs as [|[user groups] rest IH]; intros h r r' b H.
  - by inversion H.
  - cbn [loadRules_loop] in H. destruct (EnableSharding (cfg r)).
    + destruct (filterGroups E h groups [] r) as [[r1 h1] [filtered|]] eqn:Hf;
        apply filterGroups_spec in Hf as (_ & Hres).
      * destruct Hres as (Hc & _). apply IH in H.
        rewrite syncManager_ring, Hc in H. exact H.
      * destruct Hres as (Hc & _). inversion H; subst. exact Hc.
    + apply IH in H. by rewrite syncManager_ring in H.
Qed.

End RingCounter.




(** ** The registry after a tick *)

Lemma forallb_elem_of (P : Event -> bool) evs e :
  forallb P evs = true -> e ∈ evs -> P e = true.
Proof.
  rewrite forallb_forall. intros H Hin. apply H. by apply list_elem_of_In.
Qed.

(** What a tick with a successful poll does, in the two ways it can end. *)
Lemma loadRules_polled (E : Env) (r : Ruler) configs :
  ListAllRuleGroups E (log r) = Ok configs ->
  exists r1 b,
    loadRules_loop E Fnv.New32a configs (emit (EvListAllRuleGroups true) r)
    = (r1, b)
    /\ touches sync_event configs.*1 (emit (EvListAllRuleGroups true) r) r1
    /\ loadRules E r = (if b then deleteUsers configs r1 else r1).
Proof.
  intros Hpoll. unfold loadRules. rewrite Hpoll.
  destruct (loadRules_loop E Fnv.New32a configs _) as [r1 b] eqn:Hloop.
  exists r1, b. split; [done|]. split; [|by destruct b].
  by apply loadRules_loop_touches in Hloop.
Qed.

(** A tick ran to its end exactly when it counted no ring error. *)
Lemma loadRules_ran_to_end (E : Env) (r : Ruler) configs :
  ListAllRuleGroups E (log r) = Ok configs ->
  ringCheckErrors (loadRules E r)
  = if (loadRules_loop E Fnv.New32a configs
          (emit (EvListAllRuleGroups true) r)).2
    then ringCheckErrors r else S (ringCheckErrors r).
Proof.
  intros Hpoll.
  destruct (loadRules_polled E r configs Hpoll) as (r1 & b & Hloop & _ & Hr).
  rewrite Hloop, Hr. cbn [snd].
  apply loadRules_loop_ring in Hloop. destruct b; [|exact Hloop].
  destruct (deleteUsers_spec configs r1) as (_ & _ & _ & Hc & _).
  by rewrite Hc, Hloop.
Qed.




(** ** A tenant that left the poll *)

Lemma fold_emit {A} (f : A -> Event) (l : list A) : forall r,
  let r' := fold_left (fun r x => emit (f x) r) l r in
  cfg r' = cfg r /\ userManagers r' = userManagers r /\
  notifiers r' = notifiers r /\ log r' = log r ++ map f l.
Proof.
  induction l as [|x l IH]; intros r; cbn [fold_left map]; cbv zeta.
  - by rewrite app_nil_r.
  - destruct (IH (emit (f x) r)) as (Hc & Hm & Hn & Hl).
    repeat split; try done. rewrite Hl. simpl. by rewrite <- app_assoc.
Qed.





(** ** One notifier per tenant *)

Lemma applyConfig_calls_app p h1 h2 :
  applyConfig_calls p (h1 ++ h2)
  = (applyConfig_calls p h1 + applyConfig_calls p h2)%nat.
Proof. unfold applyConfig_calls. by rewrite List.filter_app, length_app. Qed.

Lemma applyConfig_calls_fresh p h :
  (forall e q, e ∈ h -> ptr_of e = Some q -> (q < p)%nat) ->
  applyConfig_calls p h = O.
Proof.
  unfold applyConfig_calls. induction h as [|e h IH]; intros Hlt; [done|].
  simpl. destruct (applied_to p e) eqn:He.
  - destruct e; try discriminate. simpl in He. apply Nat.eqb_eq in He.
    subst. exfalso.
    pose proof (Hlt _ _ (list_elem_of_here _ _) eq_refl). lia.
  - apply IH. intros e' q Hin. apply Hlt. by apply list_elem_of_further.
Qed.

Lemma NewRuler_notifiers_wf c d : notifiers_wf (NewRuler c d).
Proof.
  split; [|split]; simpl.
  - intros e p Hin. by apply elem_of_nil in Hin.
  - intros u n Hn. by rewrite lookup_empty in Hn.
  - intros u v n n' Hn. by rewrite lookup_empty in Hn.
Qed.

Lemma applyConfig_calls_new p r evs :
  (forall e q, e ∈ evs -> applied_to q e = true -> (nextPtr r <= q)%nat) ->
  (p < nextPtr r)%nat -> applyConfig_calls p evs = O.
Proof.
  unfold applyConfig_calls. induction evs as [|e evs IH]; intros Hnew Hp; [done|].
  simpl. destruct (applied_to p e) eqn:He.
  - pose proof (Hnew e p (list_elem_of_here _ _) He). lia.
  - apply IH; [|done]. intros e' q Hin. apply Hnew.
    by apply list_elem_of_further.
Qed.

(** A step that leaves the notifier map alone keeps the pool well formed
    when the addresses of its events are allocated and its calls of
    [applyConfig] are on new notifiers. *)
Lemma notifiers_wf_step r r' evs :
  notifiers_wf r ->
  log r' = log r ++ evs ->
  (nextPtr r <= nextPtr r')%nat ->
  notifiers r' = notifiers r ->
  (forall e q, e ∈ evs -> ptr_of e = Some q -> (q < nextPtr r')%nat) ->
  (forall e q, e ∈ evs -> applied_to q e = true -> (nextPtr r <= q)%nat) ->
  notifiers_wf r'.
Proof.
  intros (Hptr & Hmap & Hinj) Hlog Hnext Hnot Hnewptr Hnew.
  split; [|split].
  - intros e q. rewrite Hlog. intros [Hin|Hin]%elem_of_app Hq.
    + pose proof (Hptr e q Hin Hq). lia.
    + eauto.
  - intros u n. rewrite Hnot. intros Hn.
    destruct (Hmap u n Hn) as (Hu & Hlt & Hc).
    split; [done|]. split; [lia|].
    rewrite Hlog, applyConfig_calls_app, Hc.
    rewrite (applyConfig_calls_new _ r evs Hnew Hlt). lia.
  - rewrite Hnot. exact Hinj.
Qed.

(** A step that stores a new notifier, on which it called [applyConfig]
    once, under its tenant keeps the pool well formed. *)
Lemma notifiers_wf_insert r r' evs u n :
  notifiers_wf r ->
  log r' = log r ++ evs ->
  (nextPtr r <= rn_notifier n < nextPtr r')%nat ->
  notifiers r' = <[u := n]> (notifiers r) ->
  rn_userID n = u ->
  applyConfig_calls (rn_notifier n) evs = 1%nat ->
  (forall e q, e ∈ evs -> ptr_of e = Some q -> (q < nextPtr r')%nat) ->
  (forall e q, e ∈ evs -> applied_to q e = true -> (nextPtr r <= q)%nat) ->
  notifiers_wf r'.
Proof.
  intros (Hptr & Hmap & Hinj) Hlog Hnext Hnot Hu Hone Hnewptr Hnew.
  split; [|split].
  - intros e q. rewrite Hlog. intros [Hin|Hin]%elem_of_app Hq.
    + pose proof (Hptr e q Hin Hq). lia.
    + eauto.
  - intros v n'. rewrite Hnot, Hlog, applyConfig_calls_app.
    destruct (decide (v = u)) as [->|Hne].
    + rewrite lookup_insert_eq. intros Heq. inversion Heq; subst n'.
      split; [done|]. split; [lia|].
      rewrite (applyConfig_calls_fresh (rn_notifier n) (log r)), Hone; [done|].
      intros e q Hin Hq. pose proof (Hptr e q Hin Hq). lia.
    + rewrite lookup_insert_ne by done. intros Hn'.
      destruct (Hmap v n' Hn') as (Hv & Hlt & Hc).
      split; [done|]. split; [lia|].
      rewrite Hc, (applyConfig_calls_new _ r evs Hnew Hlt). lia.
  - intros v w n1 n2. rewrite Hnot.
    destruct (decide (v = u)) as [->|Hv];
      destruct (decide (w = u)) as [->|Hw]; [done| | |].
    + rewrite lookup_insert_eq, lookup_insert_ne by done.
      intros Heq Hn2 Hp. inversion Heq; subst n1.
      destruct (Hmap w n2 Hn2) as (_ & Hlt & _). lia.
    + rewrite lookup_insert_eq, lookup_insert_ne by done.
      intros Hn1 Heq Hp. inversion Heq; subst n2.
      destruct (Hmap v n1 Hn1) as (_ & Hlt & _). lia.
    + rewrite !lookup_insert_ne by done. apply Hinj.
Qed.

Ltac event_cases H :=
  repeat (apply elem_of_cons in H as [H|H]; [subst|]);
  [..|by apply elem_of_nil in H].

(** [getOrCreateNotifier] keeps the pool well formed. *)
Lemma getOrCreateNotifier_wf (E : Env) (userID : string) (r : Ruler) :
  notifiers_wf r -> notifiers_wf (getOrCreateNotifier E userID r).1.
Proof.
  intros Hwf. unfold getOrCreateNotifier.
  destruct (notifiers r !! userID) as [n0|] eqn:Hn0; [done|].
  cbn [alloc nextPtr cfg log emit].
  destruct (applyConfig E _ (nextPtr r)) as [err|] eqn:Ha.
  - eapply (notifiers_wf_step r _
              [EvNewRulerNotifier (nextPtr r) userID;
               EvNotifierRun (nextPtr r);
               EvApplyConfig (nextPtr r) false]); [exact Hwf|..];
      cbn [fst log nextPtr notifiers emit]; [|lia|done|..].
    + by rewrite <- !app_assoc.
    + intros e q Hin Hq. event_cases Hin; inversion Hq; lia.
    + intros e q Hin Hq. event_cases Hin; try discriminate.
      simpl in Hq. apply Nat.eqb_eq in Hq. lia.
  - eapply (notifiers_wf_insert r _
              [EvNewRulerNotifier (nextPtr r) userID;
               EvNotifierRun (nextPtr r);
               EvApplyConfig (nextPtr r) true] userID
              {| rn_notifier := nextPtr r; rn_userID := userID;
                 rn_QueueCapacity := NotificationQueueCapacity (cfg r) |});
      [exact Hwf|..];
      cbn [fst snd alloc log nextPtr notifiers emit set_notifiers
           rn_notifier rn_userID]; [|lia|reflexivity|reflexivity|..].
    + by rewrite <- !app_assoc.
    + unfold applyConfig_calls. simpl. by rewrite Nat.eqb_refl.
    + intros e q Hin Hq. event_cases Hin; inversion Hq; lia.
    + intros e q Hin Hq. event_cases Hin; try discriminate.
      simpl in Hq. apply Nat.eqb_eq in Hq. lia.
Qed.

(** *** The pool stays well formed whatever the ruler does *)

Lemma pool_wf_frame r r' :
  pool_wf r -> log r' = log r -> notifiers r' = notifiers r ->
  userManagers r' = userManagers r -> (nextPtr r <= nextPtr r')%nat ->
  pool_wf r'.
Proof.
  intros [Hn Hm] Hl Hnot Hmgr Hnext. split.
  - apply (notifiers_wf_step r r' []); auto.
    + by rewrite app_nil_r.
    + intros e q Hin. by apply elem_of_nil in Hin.
    + intros e q Hin. by apply elem_of_nil in Hin.
  - intros u m. rewrite Hmgr. intros Hu. pose proof (Hm u m Hu). lia.
Qed.

Lemma pool_wf_emit e r :
  pool_wf r ->
  (forall q, ptr_of e = Some q -> (q < nextPtr r)%nat) ->
  (forall q, applied_to q e = false) ->
  pool_wf (emit e r).
Proof.
  intros [Hn Hm] Hptr Happ. split; [|exact Hm].
  apply (notifiers_wf_step r (emit e r) [e]); auto.
  - intros e' q Hin%list_elem_of_singleton. subst. apply Hptr.
  - intros e' q Hin%list_elem_of_singleton. subst. by rewrite Happ.
Qed.

Lemma pool_wf_insert_manager u m (mm : gmap string Manager) r :
  pool_wf r ->
  (forall v m', mm !! v = Some m' -> (mgr_ptr m' < nextPtr r)%nat) ->
  (mgr_ptr m < nextPtr r)%nat ->
  pool_wf (set_userManagers (<[u := m]> mm) r).
Proof.
  intros [Hn _] Hm Hlt. split; [exact Hn|].
  intros v m'. simpl. destruct (decide (v = u)) as [->|Hne].
  - rewrite lookup_insert_eq. intros Heq. by inversion Heq; subst.
  - rewrite lookup_insert_ne by done. apply Hm.
Qed.

Lemma pool_wf_delete_manager u (mm : gmap string Manager) r :
  pool_wf r ->
  (forall v m', mm !! v = Some m' -> (mgr_ptr m' < nextPtr r)%nat) ->
  pool_wf (set_userManagers (delete u mm) r).
Proof.
  intros [Hn _] Hm. split; [exact Hn|].
  intros v m'. simpl. destruct (decide (v = u)) as [->|Hne].
  - by rewrite lookup_delete_eq.
  - rewrite lookup_delete_ne by done. apply Hm.
Qed.

Section Pool.

Variable E : Env.

Lemma getOrCreateNotifier_nextPtr userID r :
  (nextPtr r <= nextPtr (getOrCreateNotifier E userID r).1)%nat.
Proof.
  unfold getOrCreateNotifier. destruct (notifiers r !! userID); [done|].
  simpl. destruct (applyConfig E _ _); simpl; lia.
Qed.

Lemma getOrCreateNotifier_pool userID r :
  pool_wf r -> pool_wf (getOrCreateNotifier E userID r).1.
Proof.
  intros [Hn Hm]. split; [by apply getOrCreateNotifier_wf|].
  pose proof (getOrCreateNotifier_nextPtr userID r) as Hnext.
  destruct (getOrCreateNotifier E userID r) as [r' res] eqn:Hg.
  apply getOrCreateNotifier_touches in Hg as (_ & Hmgr & _).
  intros u m. simpl in *. rewrite Hmgr. intros Hu.
  pose proof (Hm u m Hu). lia.
Qed.

Lemma newManager_pool userID r :
  pool_wf r ->
  pool_wf (newManager E userID r).1
  /\ forall m, (newManager E userID r).2 = Ok m ->
       (mgr_ptr m < nextPtr (newManager E userID r).1)%nat.
Proof.
  intros Hwf. unfold newManager.
  pose proof (getOrCreateNotifier_pool userID r Hwf) as Hg.
  destruct (getOrCreateNotifier E userID r) as [r1 [p|err]]; simpl in *.
  - split.
    + apply pool_wf_emit; [|simpl; intros q Hq; inversion Hq; lia|done].
      by apply (pool_wf_frame r1); simpl; auto.
    + intros m Hm. inversion Hm; subst. simpl. lia.
  - split; [done|]. intros m Hm. discriminate.
Qed.

Lemma updateManager_pool user manager files r :
  pool_wf r -> (mgr_ptr manager < nextPtr r)%nat ->
  pool_wf (updateManager E user manager files r).
Proof.
  intros Hwf Hlt. unfold updateManager.
  destruct (manager_Update E _ _ _ _) as [groups|err].
  - apply pool_wf_emit; [|simpl; intros q Hq; inversion Hq; lia|done].
    apply pool_wf_insert_manager; [done| |done]. apply Hwf.
  - apply pool_wf_emit; [done|simpl; intros q Hq; inversion Hq; lia|done].
Qed.

Lemma syncManager_pool user groups r :
  pool_wf r -> pool_wf (syncManager E user groups r).
Proof.
  intros Hwf. unfold syncManager.
  destruct (MapRules E _ _ _ _) as [d [[update files]|err]].
  2:{ apply pool_wf_emit; [|done|done]. by apply (pool_wf_frame r). }
  assert (H1 : pool_wf (emit (EvMapRules user groups true) (set_disk d r))).
  { apply pool_wf_emit; [|done|done]. by apply (pool_wf_frame r). }
  destruct update; [|exact H1].
  set (r0 := configUpdatesTotal_Inc user _).
  assert (H0 : pool_wf r0).
  { subst r0. apply pool_wf_emit; [|done|done].
    eapply pool_wf_frame; [exact H1|..]; simpl; auto. }
  clearbody r0.
  destruct (userManagers r0 !! user) as [manager|] eqn:Hmgr.
  { apply updateManager_pool; [done|]. destruct H0 as [_ Hm]. eauto. }
  destruct (newManager_pool user r0 H0) as [Hn Hptr].
  destruct (newManager E user r0) as [r1 [manager|err]]; cbn [fst snd] in *;
    [|done].
  specialize (Hptr manager eq_refl).
  apply updateManager_pool; [|simpl; lia].
  apply pool_wf_insert_manager; [|apply Hn|simpl; lia].
  apply pool_wf_emit; [done|simpl; intros q Hq; inversion Hq; lia|done].
Qed.

Lemma ownsRule_pool hash r : pool_wf r -> pool_wf (ownsRule E hash r).1.
Proof.
  intros Hwf. unfold ownsRule.
  destruct (ring_Get E (log r) hash) as [rlrs|err].
  - destruct (String.eqb _ _); simpl; by apply pool_wf_emit.
  - simpl. unfold ringCheckErrors_Inc. apply pool_wf_emit; [|done|done].
    eapply (pool_wf_frame (emit (EvRingGet hash false) r)); simpl; auto.
    by apply pool_wf_emit.
Qed.

Lemma filterGroups_pool groups : forall h acc r,
  pool_wf r -> pool_wf (filterGroups E h groups acc r).1.1.
Proof.
  induction groups as [|g rest IH]; intros h acc r Hwf; [done|].
  rewrite filterGroups_cons. cbv zeta.
  pose proof (ownsRule_pool (ShardKey (rg_User g) (rg_Namespace g)
                                      (rg_Name g)) r Hwf) as Ho.
  destruct (ownsRule E _ r) as [r1 [owned|err]]; simpl in Ho; [|done].
  by apply IH.
Qed.

Lemma loadRules_loop_pool configs : forall h r,
  pool_wf r -> pool_wf (loadRules_loop E h configs r).1.
Proof.
  induction configs as [|[user groups] rest IH]; intros h r Hwf; [done|].
  cbn [loadRules_loop]. destruct (EnableSharding (cfg r)).
  - pose proof (filterGroups_pool groups h [] r Hwf) as Hf.
    destruct (filterGroups E h groups [] r) as [[r1 h1] [filtered|]];
      simpl in Hf; [|done].
    by apply IH, syncManager_pool.
  - by apply IH, syncManager_pool.
Qed.

Lemma deleteUser_fold_pool configs (l : list (string * Manager)) : forall r,
  pool_wf r ->
  (forall u m, (u, m) ∈ l -> (mgr_ptr m < nextPtr r)%nat) ->
  pool_wf (fold_left (deleteUser configs) l r).
Proof.
  induction l as [|[k m] l IH]; intros r Hwf Hl; [done|].
  cbn [fold_left]. apply IH.
  - unfold deleteUser. cbn [fst snd]. case_bool_decide; [done|].
    apply pool_wf_delete_manager; [|apply Hwf].
    apply pool_wf_emit; [done| |done].
    simpl. intros q Hq. inversion Hq; subst.
    apply (Hl k m), list_elem_of_here.
  - intros u m' Hin.
    assert (Hnext : nextPtr (deleteUser configs r (k, m)) = nextPtr r).
    { unfold deleteUser. by case_bool_decide. }
    rewrite Hnext. apply (Hl u m'). by apply list_elem_of_further.
Qed.

Lemma loadRules_pool r : pool_wf r -> pool_wf (loadRules E r).
Proof.
  intros Hwf. unfold loadRules.
  destruct (ListAllRuleGroups E (log r)) as [configs|err].
  2:{ by apply pool_wf_emit. }
  pose proof (loadRules_loop_pool configs Fnv.New32a
                (emit (EvListAllRuleGroups true) r)) as Hloop.
  destruct (loadRules_loop E Fnv.New32a configs _) as [r1 b]; simpl in Hloop.
  assert (H0 : pool_wf (emit (EvListAllRuleGroups true) r))
    by (by apply pool_wf_emit).
  specialize (Hloop H0).
  destruct b; [|done].
  unfold deleteUsers. apply deleteUser_fold_pool; [done|].
  intros u m Hin%elem_of_map_to_list. destruct Hloop as [_ Hm]. eauto.
Qed.

(** In every state the ruler reaches from [NewRuler] by [run], the pool
    is well formed. *)
Lemma run_pool (c : Config) (d : Disk) (ticks : nat) :
  pool_wf (run E ticks (NewRuler c d)).1.
Proof.
  unfold run. cbn [fst].
  assert (Hgen : forall n r, pool_wf r -> pool_wf (run_loop E n r)).
  { induction n as [|n IH]; intros r Hr; [done|].
    simpl. by apply IH, loadRules_pool. }
  apply Hgen, loadRules_pool. split; [apply NewRuler_notifiers_wf|].
  intros u m. unfold NewRuler. cbn [userManagers].
  by rewrite lookup_empty.
Qed.

End Pool.

(** C5: the notifier map has one entry per tenant, and on a well-formed
    pool [getOrCreateNotifier] keeps it so: when the tenant has a notifier
    it returns that one and changes nothing; when it has none it makes a
    new notifier, starts it, calls [applyConfig] on it once, and stores it
    under the tenant only after [applyConfig] succeeded; when
    [applyConfig] fails the map is as it was.  In the pool it leaves, every
    stored notifier had [applyConfig] called on it exactly once and no two
    tenants share a notifier.  The pool is well formed at any time: in
    every state [run] reaches from a new ruler. *)
Theorem C5_one_notifier_per_tenant (E : Env) (userID : string) (r : Ruler) :
  notifiers_wf r ->
  notifiers_wf (getOrCreateNotifier E userID r).1
  /\ (forall n, notifiers r !! userID = Some n ->
        getOrCreateNotifier E userID r = (r, Ok (rn_notifier n)))
  /\ (notifiers r !! userID = None ->
      let p := nextPtr r in
      let started := log r ++ [EvNewRulerNotifier p userID; EvNotifierRun p] in
      let r' := (getOrCreateNotifier E userID r).1 in
      match applyConfig E started p with
      | None =>
          (getOrCreateNotifier E userID r).2 = Ok p
          /\ notifiers r'
             = <[userID := {| rn_notifier := p; rn_userID := userID;
                              rn_QueueCapacity :=
                                NotificationQueueCapacity (cfg r) |}]>
                 (notifiers r)
          /\ log r' = started ++ [EvApplyConfig p true]
          /\ applyConfig_calls p (log r') = 1%nat
      | Some err =>
          (getOrCreateNotifier E userID r).2 = Err err
          /\ notifiers r' = notifiers r
          /\ log r' = started ++ [EvApplyConfig p false]
      end)
  /\ (forall c d ticks, notifiers_wf (run E ticks (NewRuler c d)).1).
Proof.
  intros Hwf.
  assert (Hrun : forall c d ticks, notifiers_wf (run E ticks (NewRuler c d)).1).
  { intros c d ticks. apply run_pool. }
  cut (forall A B C D : Prop, A /\ B /\ C -> D -> A /\ B /\ C /\ D);
    [|tauto].
  intros Hcut. apply Hcut; [clear Hcut|exact Hrun].
  split; [by apply getOrCreateNotifier_wf|].
  pose proof (getOrCreateNotifier_wf E userID r Hwf) as (_ & Hmap' & _).
  revert Hmap'. unfold getOrCreateNotifier.
  destruct (notifiers r !! userID) as [n0|] eqn:Hn0.
  { intros _. split; [|done]. intros n Hn. by inversion Hn. }
  cbn [alloc nextPtr cfg log emit]. rewrite <- app_assoc. cbn [app].
  destruct (applyConfig E _ (nextPtr r)) as [err|] eqn:Ha.
  - intros _. split; [done|]. intros _. cbv zeta.
    cbn [fst snd notifiers log emit]. rewrite <- !app_assoc. done.
  - cbn [fst snd notifiers log emit set_notifiers].
    rewrite <- !app_assoc. cbn [app]. intros Hmap'.
    split; [done|]. intros _. cbv zeta. repeat split; try done.
    by destruct (Hmap' userID _ (lookup_insert_eq _ _ _)) as (_ & _ & Hc).
Qed.

(** The pool after a start-up load and one tick, asked for tenant b. *)
Lemma C5_one_notifier_witness :
  notifiers_wf
    (getOrCreateNotifier Scenario.abortEnv "b"
       (run Scenario.abortEnv 1 Scenario.fresh).1).1.
Proof.
  apply (C5_one_notifier_per_tenant Scenario.abortEnv "b"
           (run Scenario.abortEnv 1 Scenario.fresh).1).
  apply (run_pool Scenario.abortEnv (Scenario.config true) ∅ 1).
Defined.

(** ** Sharded inspection *)

(** The loop over the rulers: it calls nobody but the peers, each with
    the context it was given; it fails exactly when a call failed; when it
    succeeds it has dialled and asked every ruler, and answers what it
    held followed by their answers in the order of the ring. *)
Lemma getShardedRules_loop_spec (E : Env) (ctx : Ctx) rulers :
  forall rgs r,
  exists peers,
    log (getShardedRules_loop E ctx rulers rgs r).1 = log r ++ peers
    /\ Forall (peer_call ctx) peers
    /\ existsb failed_call peers
       = is_err (getShardedRules_loop E ctx rulers rgs r).2
    /\ forall out,
         (getShardedRules_loop E ctx rulers rgs r).2 = Ok out ->
         length peers = (2 * length rulers)%nat
         /\ exists replies,
              out = rgs ++ concat replies
              /\ Forall2 (fun rlr reply =>
                            exists h, client_Rules E h (Addr rlr) ctx = Ok reply)
                   rulers replies.
Proof.
  induction rulers as [|rlr rest IH]; intros rgs r; cbn [getShardedRules_loop].
  - exists []. simpl. rewrite app_nil_r.
    split; [|split; [|split]]; auto.
    intros out Hout. inversion Hout; subst. split; [done|].
    exists []. simpl. by rewrite app_nil_r.
  - destruct (grpc_Dial E (log r) (Addr rlr)) as [err|].
    { exists [EvDial (Addr rlr) false]. simpl.
      split; [|split; [|split]]; auto; try (intros out Hout; discriminate).
      repeat constructor. }
    destruct (client_Rules E _ (Addr rlr) ctx) as [newGrps|err] eqn:Hrules.
    2:{ exists [EvDial (Addr rlr) true; EvRules (Addr rlr) ctx false]. simpl.
        rewrite <- app_assoc.
        split; [|split; [|split]]; auto; try (intros out Hout; discriminate).
        repeat constructor. }
    destruct (IH (rgs ++ newGrps)
                (emit (EvRules (Addr rlr) ctx true)
                   (emit (EvDial (Addr rlr) true) r)))
      as (peers & Hl & Hall & Hfail & Hok).
    exists (EvDial (Addr rlr) true :: EvRules (Addr rlr) ctx true :: peers).
    split; [|split; [|split]].
    + rewrite Hl. simpl. by rewrite <- !app_assoc.
    + repeat constructor; auto.
    + simpl. exact Hfail.
    + intros out Hout. destruct (Hok out Hout) as (Hlen & replies & Heq & Hrep).
      split; [simpl; lia|]. exists (newGrps :: replies). split.
      * rewrite Heq. simpl. by rewrite <- app_assoc.
      * constructor; [|done]. eexists. exact Hrules.
Qed.

(** C7: with sharding enabled [GetRules] is [getShardedRules].  It asks
    the ring for the rulers, then injects the caller's tenant into the
    outgoing gRPC context, and only then calls the peers, each with the
    injected context.  When the ring, the injection, a dial or a [Rules]
    call fails, the answer is an error and carries no groups; an answer
    that is not an error holds the answers of every ruler, in the order
    of the ring. *)
Theorem C7_sharded_rules_fail_closed (E : Env) (ctx : Ctx) (userID : string)
    (r : Ruler) :
  EnableSharding (cfg r) = true ->
  GetRules E ctx userID r = getShardedRules E ctx userID r
  /\ exists evs,
       log (getShardedRules E ctx userID r).1 = log r ++ evs
       /\ match ring_GetAll E (log r), InjectIntoGRPCRequest E ctx with
          | Err err, _ =>
              evs = [EvRingGetAll false]
              /\ (getShardedRules E ctx userID r).2 = Err err
          | Ok _, Err _ =>
              evs = [EvRingGetAll true]
              /\ is_err (getShardedRules E ctx userID r).2 = true
          | Ok rulers, Ok ctx' =>
              exists peers,
                evs = EvRingGetAll true :: EvInjectIntoGRPCRequest ctx' :: peers
                /\ Forall (peer_call ctx') peers
                /\ existsb failed_call peers
                   = is_err (getShardedRules E ctx userID r).2
                /\ forall out,
                     (getShardedRules E ctx userID r).2 = Ok out ->
                     length peers = (2 * length rulers)%nat
                     /\ exists replies,
                          out = concat replies
                          /\ Forall2
                               (fun rlr reply =>
                                  exists h,
                                    client_Rules E h (Addr rlr) ctx' = Ok reply)
                               rulers replies
          end.
Proof.
  intros Hs. split; [unfold GetRules; by rewrite Hs|].
  unfold getShardedRules.
  destruct (ring_GetAll E (log r)) as [rulers|err].
  2:{ exists [EvRingGetAll false]. by destruct (InjectIntoGRPCRequest E ctx). }
  destruct (InjectIntoGRPCRequest E ctx) as [ctx'|err].
  2:{ exists [EvRingGetAll true]. done. }
  destruct (getShardedRules_loop_spec E ctx' rulers []
              (emit (EvInjectIntoGRPCRequest ctx')
                 (emit (EvRingGetAll true) r)))
    as (peers & Hl & Hall & Hfail & Hok).
  exists (EvRingGetAll true :: EvInjectIntoGRPCRequest ctx' :: peers).
  split.
  { rewrite Hl. simpl. by rewrite <- !app_assoc. }
  exists peers. split; [done|]. split; [done|]. split; [done|].
  intros out Hout. destruct (Hok out Hout) as (Hlen & replies & Heq & Hrep).
  split; [done|]. by exists replies.
Qed.

(** A sharded ruler asked for the rules of tenant a. *)
Lemma C7_sharded_rules_witness :
  GetRules Scenario.abortEnv {| ctx_orgID := Some "a"; ctx_grpcOrgID := None |}
    "a" Scenario.fresh
  = getShardedRules Scenario.abortEnv
      {| ctx_orgID := Some "a"; ctx_grpcOrgID := None |} "a" Scenario.fresh.
Proof.
  eapply (C7_sharded_rules_fail_closed Scenario.abortEnv
            {| ctx_orgID := Some "a"; ctx_grpcOrgID := None |} "a"
            Scenario.fresh).
  reflexivity.
Defined.

(** ** The config update counter *)

Lemma configUpdates_Inc user r :
  configUpdates (configUpdatesTotal_Inc user r) user = S (configUpdates r user).
Proof. unfold configUpdates at 1. simpl. by rewrite lookup_insert_eq. Qed.

(** C10, as the code has it: when the mapper reports a change,
    [syncManager] counts the config update of the tenant before anything
    is done about its evaluator, and the count stays whatever follows.
    When the creation of the evaluator fails (its notifier's [applyConfig]
    failed), the registry is as it was.  When [Update] fails on an
    evaluator that existed, the registry is as it was; when it fails on an
    evaluator this very call created, that evaluator, running and without
    rules, stays registered. *)
Theorem C10_config_update_counted_first (E : Env) (user : string)
    (groups : RuleGroupList) (r : Ruler) (d : Disk) (files : list string) :
  MapRules E (log r) user groups (disk r) = (d, Ok (true, files)) ->
  configUpdates (syncManager E user groups r) user = S (configUpdates r user)
  /\ exists evs,
       log (syncManager E user groups r)
       = log r ++ EvMapRules user groups true :: EvConfigUpdatesInc user :: evs
       /\ forallb evaluator_event evs = true
       /\ (forall p, EvApplyConfig p false ∈ evs ->
             userManagers (syncManager E user groups r) = userManagers r)
       /\ (forall p, EvManagerUpdate p files false ∈ evs ->
             match userManagers r !! user with
             | Some m =>
                 userManagers (syncManager E user groups r) = userManagers r
             | None =>
                 exists m,
                   userManagers (syncManager E user groups r)
                   = <[user := m]> (userManagers r)
                   /\ mgr_ptr m = p /\ mgr_running m = true
                   /\ mgr_files m = [] /\ mgr_groups m = []
             end).
Proof.
  intros HM. unfold syncManager. rewrite HM.
  set (r0 := configUpdatesTotal_Inc user _).
  assert (Hc0 : configUpdates r0 user = S (configUpdates r user)).
  { subst r0. rewrite configUpdates_Inc. reflexivity. }
  assert (Hl0 : log r0 = log r ++ [EvMapRules user groups true;
                                   EvConfigUpdatesInc user]).
  { subst r0. simpl. by rewrite <- app_assoc. }
  assert (Hm0 : userManagers r0 = userManagers r) by done.
  assert (Hn0 : notifiers r0 = notifiers r) by done.
  assert (Hu : forall r1, configUpdatesTotal r1 = configUpdatesTotal r0 ->
                          configUpdates r1 user = S (configUpdates r user)).
  { intros r1 H1. unfold configUpdates in *. by rewrite H1. }
  rewrite Hm0.
  destruct (userManagers r !! user) as [m|] eqn:Hmgr.
  - (* the evaluator exists *)
    unfold updateManager.
    destruct (manager_Update E (log r0) m _ files) as [loaded|err].
    + split; [by apply Hu|].
      exists [EvManagerUpdate (mgr_ptr m) files true].
      cbn [log emit set_userManagers]. rewrite Hl0, <- app_assoc.
      split; [done|]. split; [done|].
      split; intros p Hin; event_cases Hin; discriminate.
    + split; [by apply Hu|].
      exists [EvManagerUpdate (mgr_ptr m) files false].
      cbn [log emit userManagers]. rewrite Hl0, <- app_assoc.
      split; [done|]. split; [done|].
      split; [intros p Hin; event_cases Hin; discriminate|done].
  - (* the evaluator is created *)
    unfold newManager, getOrCreateNotifier. rewrite Hn0.
    destruct (notifiers r !! user) as [n|] eqn:Hnot.
    + cbn [alloc]. cbn [Manager_Run mgr_ptr].
      unfold updateManager. cbn [log emit set_userManagers cfg mgr_ptr].
      destruct (manager_Update E _ _ _ files) as [loaded|err].
      * split; [by apply Hu|]. eexists [_; _; _].
        cbn [log emit set_userManagers]. rewrite Hl0, <- !app_assoc.
        split; [reflexivity|]. split; [done|].
        split; intros p Hin; event_cases Hin; discriminate.
      * split; [by apply Hu|]. eexists [_; _; _].
        cbn [log emit set_userManagers userManagers].
        rewrite Hl0, <- !app_assoc.
        split; [reflexivity|]. split; [done|].
        split; intros p Hin; event_cases Hin; try discriminate.
        inversion Hin; subst. rewrite Hm0. eexists. split; [reflexivity|].
        done.
    + cbn [alloc log emit nextPtr cfg].
      destruct (applyConfig E _ (nextPtr r0)) as [err|].
      * split; [by apply Hu|]. eexists [_; _; _].
        cbn [log emit userManagers]. rewrite Hl0, <- !app_assoc.
        split; [reflexivity|]. split; [done|].
        split; [done|]. intros p Hin; event_cases Hin; discriminate.
      * cbn [alloc set_notifiers emit log nextPtr cfg Manager_Run mgr_ptr].
        unfold updateManager. cbn [log emit set_userManagers cfg mgr_ptr].
        destruct (manager_Update E _ _ _ files) as [loaded|err].
        -- split; [by apply Hu|]. eexists [_; _; _; _; _; _].
           cbn [log emit set_userManagers]. rewrite Hl0, <- !app_assoc.
           split; [reflexivity|]. split; [done|].
           split; intros p Hin; event_cases Hin; discriminate.
        -- split; [by apply Hu|]. eexists [_; _; _; _; _; _].
           cbn [log emit set_userManagers userManagers].
           rewrite Hl0, <- !app_assoc.
           split; [reflexivity|]. split; [done|].
           split; intros p Hin; event_cases Hin; try discriminate.
           inversion Hin; subst. rewrite Hm0. eexists. split; [reflexivity|].
           done.
Qed.

(** Tenant a is new, the mapper reports a change, [Update] fails. *)
Lemma C10_config_update_witness :
  configUpdates
    (syncManager Scenario.updateFailsEnv "a" Scenario.tenantA.2 Scenario.fresh)
    "a"
  = S (configUpdates Scenario.fresh "a").
Proof.
  eapply (C10_config_update_counted_first Scenario.updateFailsEnv "a"
            Scenario.tenantA.2 Scenario.fresh
            (<["/rules/a/ns" := "g1"]> ∅) ["/rules/a/ns"]).
  reflexivity.
Defined.

(** C10 as stated fails: tenant a has no evaluator, the mapper reports a
    change, the evaluator is created, started and registered, and then
    [Update] fails.  The update is counted, and the registry is not as it
    was: it holds the new evaluator, running with no rule loaded. *)
Lemma C10_failed_update_leaves_new_evaluator :
  userManagers Scenario.fresh !! "a" = None
  /\ userManagers
       (syncManager Scenario.updateFailsEnv "a" Scenario.tenantA.2
          Scenario.fresh) !! "a"
     = Some {| mgr_ptr := 1; mgr_userID := "a";
               mgr_ExternalURL := "http://ruler"; mgr_notifier := 0;
               mgr_running := true; mgr_files := []; mgr_groups := [] |}
  /\ configUpdates
       (syncManager Scenario.updateFailsEnv "a" Scenario.tenantA.2
          Scenario.fresh) "a" = 1%nat
  /\ last (log (syncManager Scenario.updateFailsEnv "a" Scenario.tenantA.2
                  Scenario.fresh))
     = Some (EvManagerUpdate 1 ["/rules/a/ns"] false).
Proof.
  split; [reflexivity|]. split; [vm_compute; reflexivity|].
  split; vm_compute; reflexivity.
Qed.

(** ** The model at work *)

(** Sharding on, this ruler owns everything, the poll brings tenants a
    and b: both get an evaluator, a notifier, a rule file and one config
    update counted, and no ring error is counted. *)
Example tick_two_tenants_owned :
  let r := loadRules
             (Scenario.env (Ok [Scenario.tenantA; Scenario.tenantB])
                Scenario.ringUp false false) Scenario.fresh in
  dom (userManagers r) = {["a"; "b"]}
  /\ dom (notifiers r) = {["a"; "b"]}
  /\ dom (disk r) = {["/rules/a/ns"; "/rules/b/ns"]}
  /\ configUpdates r "a" = 1%nat /\ configUpdates r "b" = 1%nat
  /\ ringCheckErrors r = O.
Proof.
  cbv zeta. repeat split; vm_compute; reflexivity.
Qed.

(** Sharding on, the ring names a peer as owner of every key: the group
    of tenant a is filtered out, the mapper is called with no group and
    reports no change, and no evaluator is created and no update
    counted. *)
Example tick_group_not_owned :
  let E := {| ListAllRuleGroups := fun _ => Ok [Scenario.tenantA];
              ring_Get := fun _ _ =>
                Ok {| rs_first := {| Addr := "peer" |}; rs_rest := [] |};
              ring_GetAll := ring_GetAll Scenario.abortEnv;
              lifecycler_Addr := "self";
              MapRules := MapRules Scenario.abortEnv;
              applyConfig := applyConfig Scenario.abortEnv;
              manager_Update := manager_Update Scenario.abortEnv;
              InjectIntoGRPCRequest := InjectIntoGRPCRequest Scenario.abortEnv;
              grpc_Dial := grpc_Dial Scenario.abortEnv;
              client_Rules := client_Rules Scenario.abortEnv;
              TableLinkForExpression :=
                TableLinkForExpression Scenario.abortEnv;
              filepath_Join := filepath_Join Scenario.abortEnv |} in
  userManagers (loadRules E Scenario.fresh) = ∅
  /\ configUpdates (loadRules E Scenario.fresh) "a" = O
  /\ log (loadRules E Scenario.fresh)
     = [EvListAllRuleGroups true; EvRingGet (ShardKey "a" "ns" "g1") true;
        EvMapRules "a" [] true].
Proof. cbv zeta. repeat split; vm_compute; reflexivity. Qed.

(** Tenant z leaves the poll and the tick runs to its end: its evaluator
    is stopped and removed, its notifier stays. *)
Example tick_tenant_deleted :
  dom (userManagers (loadRules Scenario.onlyB_ringUp Scenario.withZ)) = {["b"]}
  /\ dom (notifiers (loadRules Scenario.onlyB_ringUp Scenario.withZ))
     = {["b"; "z"]}
  /\ List.filter is_stop (log (loadRules Scenario.onlyB_ringUp Scenario.withZ))
     = [EvManagerStop 1].
Proof. repeat split; vm_compute; reflexivity. Qed.

(** * Further properties of ruler.go *)

(** ** [syncManager] *)

(** When the mapper fails or reports no change, [syncManager] does nothing
    else: the registry, the notifier map, both counters and the next free
    address are as they were, the rule files are what the mapper left, and
    the history grew by the call of the mapper alone. *)
Theorem syncManager_quiet (E : Env) (user : string) (groups : RuleGroupList)
    (r : Ruler) (d : Disk) :
  (exists err, MapRules E (log r) user groups (disk r) = (d, Err err)) \/
  (exists files,
     MapRules E (log r) user groups (disk r) = (d, Ok (false, files))) ->
  userManagers (syncManager E user groups r) = userManagers r
  /\ notifiers (syncManager E user groups r) = notifiers r
  /\ configUpdatesTotal (syncManager E user groups r) = configUpdatesTotal r
  /\ ringCheckErrors (syncManager E user groups r) = ringCheckErrors r
  /\ nextPtr (syncManager E user groups r) = nextPtr r
  /\ disk (syncManager E user groups r) = d
  /\ exists ok,
       log (syncManager E user groups r)
       = log r ++ [EvMapRules user groups ok].
Proof.
  unfold syncManager.
  intros [[err HM]|[files HM]]; rewrite HM; simpl; repeat split; eauto.
Qed.

(** The mapper fails for tenant a. *)
Lemma syncManager_quiet_witness :
  userManagers
    (syncManager Cases.mapperFailsEnv "a" Scenario.tenantA.2 Scenario.fresh)
  = userManagers Scenario.fresh.
Proof.
  eapply (syncManager_quiet Cases.mapperFailsEnv "a" Scenario.tenantA.2
            Scenario.fresh ∅).
  left. exists "read-only file system". reflexivity.
Defined.

(** [syncManager] is about one tenant: for every other tenant the
    evaluator, the notifier and the count of config updates are as they
    were; the configuration and the count of ring errors are untouched;
    and the ring is not asked. *)
Theorem syncManager_only_its_tenant (E : Env) (user : string)
    (groups : RuleGroupList) (r : Ruler) :
  cfg (syncManager E user groups r) = cfg r
  /\ ringCheckErrors (syncManager E user groups r) = ringCheckErrors r
  /\ (forall v, v <> user ->
        userManagers (syncManager E user groups r) !! v = userManagers r !! v
        /\ notifiers (syncManager E user groups r) !! v = notifiers r !! v
        /\ configUpdates (syncManager E user groups r) v = configUpdates r v)
  /\ exists evs,
       log (syncManager E user groups r) = log r ++ evs
       /\ forallb (fun e => negb (ring_event e)) evs = true.
Proof.
  destruct (syncManager_touches E user groups r) as [Hc Hm Hn Hu Hext].
  split; [exact Hc|]. split; [apply syncManager_ring|]. split.
  - intros v Hv.
    assert (Hnot : v ∉ [user]) by (by intros ?%list_elem_of_singleton).
    unfold configUpdates. rewrite (Hm v Hnot), (Hn v Hnot), (Hu v Hnot). done.
  - destruct Hext as (evs & Hl & Hf). exists evs. split; [done|].
    rewrite forallb_forall in *. intros e He. specialize (Hf e He).
    unfold tenant_event in Hf. by apply andb_prop in Hf as [_ ?].
Qed.



(** ** [getOrCreateNotifier] *)

(** Asking again gives the same notifier and changes nothing: after a
    call that answered a notifier, a second call for the same tenant
    answers that notifier and leaves the ruler as the first call left
    it. *)
Theorem getOrCreateNotifier_again (E : Env) (userID : string) (r r1 : Ruler)
    (p : nat) :
  getOrCreateNotifier E userID r = (r1, Ok p) ->
  getOrCreateNotifier E userID r1 = (r1, Ok p).
Proof.
  unfold getOrCreateNotifier at 1.
  destruct (notifiers r !! userID) as [n|] eqn:Hn.
  - intros H. inversion H; subst. unfold getOrCreateNotifier. by rewrite Hn.
  - cbn [alloc]. destruct (applyConfig E _ _); [discriminate|].
    intros H. inversion H; subst. unfold getOrCreateNotifier.
    cbn [notifiers set_notifiers]. by rewrite lookup_insert_eq.
Qed.

Lemma getOrCreateNotifier_again_witness :
  getOrCreateNotifier Scenario.abortEnv "a"
    (getOrCreateNotifier Scenario.abortEnv "a" Scenario.fresh).1
  = ((getOrCreateNotifier Scenario.abortEnv "a" Scenario.fresh).1, Ok O).
Proof.
  apply (getOrCreateNotifier_again Scenario.abortEnv "a" Scenario.fresh).
  reflexivity.
Defined.

(** ** What a run keeps *)

Lemma keeps_notifiers_refl r : keeps_notifiers r r.
Proof. by intros u n. Qed.

Lemma keeps_notifiers_trans r1 r2 r3 :
  keeps_notifiers r1 r2 -> keeps_notifiers r2 r3 -> keeps_notifiers r1 r3.
Proof. intros H1 H2 u n Hn. by apply H2, H1. Qed.

Lemma keeps_notifiers_same r r' :
  notifiers r' = notifiers r -> keeps_notifiers r r'.
Proof. intros H u n. by rewrite H. Qed.

Lemma counters_grow_refl r : counters_grow r r.
Proof. split; [lia|]. intros u. lia. Qed.

Lemma counters_grow_trans r1 r2 r3 :
  counters_grow r1 r2 -> counters_grow r2 r3 -> counters_grow r1 r3.
Proof.
  intros [H1 H1'] [H2 H2']. split; [lia|].
  intros u. specialize (H1' u). specialize (H2' u). lia.
Qed.

Lemma counters_grow_same r r' :
  ringCheckErrors r' = ringCheckErrors r ->
  configUpdatesTotal r' = configUpdatesTotal r -> counters_grow r r'.
Proof.
  intros H1 H2. split; [lia|]. intros u. unfold configUpdates.
  rewrite H2. lia.
Qed.

Section Kept.

Variable E : Env.

Lemma getOrCreateNotifier_keeps userID r :
  keeps_notifiers r (getOrCreateNotifier E userID r).1.
Proof.
  unfold getOrCreateNotifier.
  destruct (notifiers r !! userID) as [n0|] eqn:Hn0; [by intros u n|].
  cbn [alloc]. destruct (applyConfig E _ _); [by intros u n|].
  intros u n Hn. cbn [fst notifiers set_notifiers].
  rewrite lookup_insert_ne; [done|]. intros ->. congruence.
Qed.

Lemma syncManager_keeps user groups r :
  keeps_notifiers r (syncManager E user groups r).
Proof.
  unfold syncManager.
  destruct (MapRules E _ _ _ _) as [d [[update files]|err]];
    [|by intros u n].
  destruct update; [|by intros u n].
  set (r0 := configUpdatesTotal_Inc user _).
  assert (H0 : keeps_notifiers r r0) by (by intros u n).
  clearbody r0.
  destruct (userManagers r0 !! user) as [manager|].
  { eapply keeps_notifiers_trans; [exact H0|].
    apply keeps_notifiers_same. unfold updateManager.
    by destruct (manager_Update E _ _ _ _). }
  unfold newManager.
  pose proof (getOrCreateNotifier_keeps user r0) as Hg.
  destruct (getOrCreateNotifier E user r0) as [r1 [p|err]]; cbn [fst] in Hg.
  - cbn [alloc]. eapply keeps_notifiers_trans; [exact H0|].
    eapply keeps_notifiers_trans; [exact Hg|].
    apply keeps_notifiers_same. unfold updateManager.
    by destruct (manager_Update E _ _ _ _).
  - eapply keeps_notifiers_trans; eauto.
Qed.

Lemma syncManager_counters user groups r :
  counters_grow r (syncManager E user groups r).
Proof.
  split; [by rewrite syncManager_ring|].
  intros u. destruct (decide (u = user)) as [->|Hne].
  2:{ destruct (syncManager_touches E user groups r) as [_ _ _ Hu _].
      unfold configUpdates. rewrite Hu; [lia|].
      by intros ?%list_elem_of_singleton. }
  unfold syncManager.
  destruct (MapRules E _ _ _ _) as [d [[update files]|err]];
    [|unfold configUpdates; simpl; lia].
  destruct update; [|unfold configUpdates; simpl; lia].
  set (r0 := configUpdatesTotal_Inc user _).
  assert (H0 : configUpdates r0 user = S (configUpdates r user)).
  { subst r0. by rewrite configUpdates_Inc. }
  assert (Hsame : forall r1, configUpdatesTotal r1 = configUpdatesTotal r0 ->
                    (configUpdates r user <= configUpdates r1 user)%nat).
  { intros r1 H1. unfold configUpdates in *. rewrite H1. lia. }
  clearbody r0.
  destruct (userManagers r0 !! user) as [manager|].
  { apply Hsame. apply updateManager_touches. }
  destruct (newManager E user r0) as [r1 [manager|err]] eqn:Hn;
    apply newManager_touches in Hn as (_ & _ & Hc & _).
  - apply Hsame. rewrite <- Hc.
    destruct (updateManager_touches E user (Manager_Run manager) files
                (set_userManagers
                   (<[user := Manager_Run manager]>
                      (userManagers
                         (emit (EvManagerRun (mgr_ptr (Manager_Run manager)))
                            r1)))
                   (emit (EvManagerRun (mgr_ptr (Manager_Run manager))) r1)))
      as (_ & Hu & _).
    exact Hu.
  - by apply Hsame.
Qed.

Lemma filterGroups_kept h groups acc r :
  keeps_notifiers r (filterGroups E h groups acc r).1.1
  /\ counters_grow r (filterGroups E h groups acc r).1.1.
Proof.
  destruct (filterGroups E h groups acc r) as [[r' h'] res] eqn:Hf.
  apply filterGroups_spec in Hf as ((_ & _ & Hn & Hu & _) & Hres).
  cbn [fst]. split; [by apply keeps_notifiers_same|].
  split; [destruct res; destruct Hres as [Hc _]; lia|].
  intros u. unfold configUpdates. rewrite Hu. lia.
Qed.

Lemma loadRules_loop_kept configs : forall h r,
  keeps_notifiers r (loadRules_loop E h configs r).1
  /\ counters_grow r (loadRules_loop E h configs r).1.
Proof.
  induction configs as [|[user groups] rest IH]; intros h r.
  - split; [apply keeps_notifiers_refl | apply counters_grow_refl].
  - cbn [loadRules_loop]. destruct (EnableSharding (cfg r)).
    + destruct (filterGroups_kept h groups [] r) as [Hk Hc].
      destruct (filterGroups E h groups [] r) as [[r1 h1] [filtered|]];
        cbn [fst] in *; [|done].
      destruct (IH h1 (syncManager E user filtered r1)) as [Hk' Hc'].
      split.
      * eapply keeps_notifiers_trans; [exact Hk|].
        eapply keeps_notifiers_trans; [apply syncManager_keeps | exact Hk'].
      * eapply counters_grow_trans; [exact Hc|].
        eapply counters_grow_trans; [apply syncManager_counters | exact Hc'].
    + destruct (IH h (syncManager E user groups r)) as [Hk' Hc'].
      split.
      * eapply keeps_notifiers_trans; [apply syncManager_keeps | exact Hk'].
      * eapply counters_grow_trans; [apply syncManager_counters | exact Hc'].
Qed.

Lemma loadRules_kept r :
  keeps_notifiers r (loadRules E r) /\ counters_grow r (loadRules E r)
  /\ extends tick_event r (loadRules E r).
Proof.
  unfold loadRules.
  destruct (ListAllRuleGroups E (log r)) as [configs|err].
  2:{ split; [by intros u n|]. split; [by apply counters_grow_same|].
      by exists [EvListAllRuleGroups false]. }
  set (r0 := emit (EvListAllRuleGroups true) r).
  destruct (loadRules_loop_kept configs Fnv.New32a r0) as [Hk Hc].
  destruct (loadRules_loop E Fnv.New32a configs r0) as [r1 b] eqn:Hloop.
  apply loadRules_loop_touches in Hloop as [_ _ _ _ Hext].
  cbn [fst] in *.
  assert (Hext1 : extends tick_event r r1).
  { eapply (extends_trans _ r r0 r1).
    - by exists [EvListAllRuleGroups true].
    - eapply extends_weaken; [|exact Hext].
      intros e He. unfold tick_event. rewrite He. by destruct (is_poll e). }
  destruct b; [|done].
  destruct (deleteUsers_spec configs r1)
    as (_ & Hn & _ & Hr & Hu & _ & evs & Hl & Hf & _).
  split; [|split].
  - eapply keeps_notifiers_trans; [exact Hk|]. by apply keeps_notifiers_same.
  - eapply counters_grow_trans; [exact Hc|]. by apply counters_grow_same.
  - eapply extends_trans; [exact Hext1|]. exists evs. split; [done|].
    rewrite forallb_forall in *. intros e He. specialize (Hf e He).
    by destruct e.
Qed.

Lemma run_loop_kept ticks : forall r,
  keeps_notifiers r (run_loop E ticks r) /\ counters_grow r (run_loop E ticks r)
  /\ extends tick_event r (run_loop E ticks r).
Proof.
  induction ticks as [|ticks IH]; intros r; cbn [run_loop].
  - split; [apply keeps_notifiers_refl|].
    split; [apply counters_grow_refl | apply extends_refl].
  - destruct (loadRules_kept r) as (Hk & Hc & He).
    destruct (IH (loadRules E r)) as (Hk' & Hc' & He').
    split; [eapply keeps_notifiers_trans; eauto|].
    split; [eapply counters_grow_trans; eauto|].
    eapply extends_trans; eauto.
Qed.

End Kept.


(** A notifier stays for the whole run: an entry of the notifier map is
    never removed nor replaced by a tick, and the run does not stop it. *)
Theorem run_keeps_every_notifier (E : Env) (ticks : nat) (r : Ruler)
    (u : string) (n : rulerNotifier) :
  notifiers r !! u = Some n ->
  notifiers (run E ticks r).1 !! u = Some n
  /\ exists evs,
       log (run E ticks r).1 = log r ++ evs
       /\ EvNotifierStop (rn_notifier n) ∉ evs.
Proof.
  intros Hn. unfold run. cbn [fst].
  destruct (loadRules_kept E r) as (Hk & _ & He).
  destruct (run_loop_kept E ticks (loadRules E r)) as (Hk' & _ & He').
  split; [by apply Hk', Hk|].
  destruct (extends_trans _ _ _ _ He He') as (evs & Hl & Hf).
  exists evs. split; [done|]. intros Hin.
  by apply (forallb_elem_of _ _ _ Hf) in Hin.
Qed.

(** The notifier of tenant z through two ticks that no longer bring z. *)
Lemma run_keeps_every_notifier_witness :
  notifiers (run Scenario.onlyB_ringUp 1 Scenario.withZ).1 !! "z"
  = Some {| rn_notifier := 0; rn_userID := "z"; rn_QueueCapacity := 10000 |}.
Proof.
  eapply (run_keeps_every_notifier Scenario.onlyB_ringUp 1 Scenario.withZ "z").
  vm_compute. reflexivity.
Defined.

(** The counters over one tick: a tick counts at most one ring error, and
    none when the poll fails or sharding is off; no count of config
    updates goes down, and only tenants of the poll get one counted. *)
Theorem loadRules_counters (E : Env) (r : Ruler) :
  (ringCheckErrors r <= ringCheckErrors (loadRules E r)
   <= S (ringCheckErrors r))%nat
  /\ (forall u, (configUpdates r u <= configUpdates (loadRules E r) u)%nat)
  /\ (forall configs u,
        ListAllRuleGroups E (log r) = Ok configs -> u ∉ configs.*1 ->
        configUpdates (loadRules E r) u = configUpdates r u)
  /\ (is_err (ListAllRuleGroups E (log r)) = true
      \/ EnableSharding (cfg r) = false ->
      ringCheckErrors (loadRules E r) = ringCheckErrors r).
Proof.
  destruct (loadRules_kept E r) as (_ & [Hring Hupd] & _).
  split; [|split; [exact Hupd|split]].
  - split; [exact Hring|].
    destruct (ListAllRuleGroups E (log r)) as [configs|err] eqn:Hpoll.
    + rewrite (loadRules_ran_to_end E r configs Hpoll).
      destruct (loadRules_loop E _ _ _).2; lia.
    + unfold loadRules. rewrite Hpoll. simpl. lia.
  - intros configs u Hpoll Hu.
    destruct (loadRules_polled E r configs Hpoll) as (r1 & b & _ & Ht & Hr).
    destruct Ht as [_ _ _ Hupd1 _]. rewrite Hr. unfold configUpdates.
    destruct b.
    + destruct (deleteUsers_spec configs r1) as (_ & _ & _ & _ & Hc & _).
      rewrite Hc, (Hupd1 u Hu). done.
    + rewrite (Hupd1 u Hu). done.
  - destruct (ListAllRuleGroups E (log r)) as [configs|err] eqn:Hpoll.
    + intros [Herr|Hs]; [discriminate|].
      rewrite (loadRules_ran_to_end E r configs Hpoll).
      by rewrite (loadRules_loop_unsharded E configs Fnv.New32a
                    (emit (EvListAllRuleGroups true) r) Hs).
    + intros _. unfold loadRules. by rewrite Hpoll.
Qed.

(** ** The registry at any time *)

Section Registry.

Variable E : Env.

Lemma registry_wf_frame r r' :
  registry_wf r -> userManagers r' = userManagers r ->
  keeps_notifiers r r' -> registry_wf r'.
Proof.
  intros Hwf Hm Hk u m. rewrite Hm. intros Hu.
  destruct (Hwf u m Hu) as (Hrun & Hid & n & Hn & Hp).
  split; [done|]. split; [done|]. exists n. split; [by apply Hk | done].
Qed.

Lemma registry_wf_insert r user m :
  registry_wf r ->
  mgr_running m = true -> mgr_userID m = user ->
  (exists n, notifiers r !! user = Some n /\ rn_notifier n = mgr_notifier m) ->
  forall mm, mm = userManagers r ->
  registry_wf (set_userManagers (<[user := m]> mm) r).
Proof.
  intros Hwf Hrun Hid Hn mm -> u m'. cbn [userManagers notifiers
    set_userManagers].
  destruct (decide (u = user)) as [->|Hne].
  - rewrite lookup_insert_eq. intros Heq. inversion Heq; subst m'. done.
  - rewrite lookup_insert_ne by done. apply Hwf.
Qed.

Lemma getOrCreateNotifier_answer userID r r1 p :
  getOrCreateNotifier E userID r = (r1, Ok p) ->
  exists n, notifiers r1 !! userID = Some n /\ rn_notifier n = p.
Proof.
  unfold getOrCreateNotifier.
  destruct (notifiers r !! userID) as [n|] eqn:Hn.
  - intros H. inversion H; subst. by exists n.
  - cbn [alloc]. destruct (applyConfig E _ _); [discriminate|].
    intros H. inversion H; subst. eexists.
    cbn [notifiers set_notifiers]. rewrite lookup_insert_eq. done.
Qed.

Lemma updateManager_registry user manager files r :
  registry_wf r ->
  mgr_running manager = true -> mgr_userID manager = user ->
  (exists n, notifiers r !! user = Some n
             /\ rn_notifier n = mgr_notifier manager) ->
  registry_wf (updateManager E user manager files r).
Proof.
  intros Hwf Hrun Hid Hn. unfold updateManager.
  destruct (manager_Update E _ _ _ _) as [groups|err].
  - eapply (registry_wf_frame
              (set_userManagers
                 (<[user := Manager_loaded files groups manager]>
                    (userManagers r)) r)); [|done|by intros u n].
    by apply registry_wf_insert.
  - by eapply (registry_wf_frame r); [|done|intros u n].
Qed.

Lemma syncManager_registry user groups r :
  registry_wf r -> registry_wf (syncManager E user groups r).
Proof.
  intros Hwf. unfold syncManager.
  destruct (MapRules E _ _ _ _) as [d [[update files]|err]].
  2:{ by eapply (registry_wf_frame r); [|done|intros u n]. }
  destruct update.
  2:{ by eapply (registry_wf_frame r); [|done|intros u n]. }
  set (r0 := configUpdatesTotal_Inc user _).
  assert (H0 : registry_wf r0).
  { by eapply (registry_wf_frame r); [|done|intros u n]. }
  clearbody r0.
  destruct (userManagers r0 !! user) as [manager|] eqn:Hmgr.
  { destruct (H0 user manager Hmgr) as (Hrun & Hid & Hn).
    by apply updateManager_registry. }
  unfold newManager.
  pose proof (getOrCreateNotifier_keeps E user r0) as Hk.
  destruct (getOrCreateNotifier E user r0) as [r1 [p|err]] eqn:Hg;
    cbn [fst] in Hk.
  - pose proof (getOrCreateNotifier_answer _ _ _ _ Hg) as (n & Hn & Hp).
    apply getOrCreateNotifier_touches in Hg as (_ & Hm & _).
    assert (H1 : registry_wf r1) by (by eapply (registry_wf_frame r0)).
    cbn [alloc]. apply updateManager_registry; [|done|done|].
    + apply registry_wf_insert; [|done|done| |done].
      * by eapply (registry_wf_frame r1); [|done|intros u n'].
      * by exists n.
    + by exists n.
  - apply getOrCreateNotifier_touches in Hg as (_ & Hm & _).
    by eapply (registry_wf_frame r0).
Qed.

Lemma filterGroups_registry h groups acc r :
  registry_wf r -> registry_wf (filterGroups E h groups acc r).1.1.
Proof.
  intros Hwf.
  destruct (filterGroups E h groups acc r) as [[r' h'] res] eqn:Hf.
  apply filterGroups_spec in Hf as ((_ & Hm & Hn & _) & _). cbn [fst].
  eapply (registry_wf_frame r); [done|done|by apply keeps_notifiers_same].
Qed.

Lemma loadRules_loop_registry configs : forall h r,
  registry_wf r -> registry_wf (loadRules_loop E h configs r).1.
Proof.
  induction configs as [|[user groups] rest IH]; intros h r Hwf; [done|].
  cbn [loadRules_loop]. destruct (EnableSharding (cfg r)).
  - pose proof (filterGroups_registry h groups [] r Hwf) as Hf.
    destruct (filterGroups E h groups [] r) as [[r1 h1] [filtered|]];
      cbn [fst] in Hf; [|done].
    by apply IH, syncManager_registry.
  - by apply IH, syncManager_registry.
Qed.

Lemma loadRules_registry r : registry_wf r -> registry_wf (loadRules E r).
Proof.
  intros Hwf. unfold loadRules.
  destruct (ListAllRuleGroups E (log r)) as [configs|err].
  2:{ by eapply (registry_wf_frame r); [|done|intros u n]. }
  pose proof (loadRules_loop_registry configs Fnv.New32a
                (emit (EvListAllRuleGroups true) r)) as Hloop.
  destruct (loadRules_loop E Fnv.New32a configs _) as [r1 b]; cbn [fst] in Hloop.
  assert (H1 : registry_wf r1).
  { apply Hloop. by eapply (registry_wf_frame r); [|done|intros u n]. }
  destruct b; [|done].
  destruct (deleteUsers_spec configs r1) as (_ & Hn & _ & _ & _ & Hlook & _).
  intros u m. rewrite Hlook, Hn. case_bool_decide; [apply H1|done].
Qed.

End Registry.

(** In every state [run] reaches from a new ruler, every registered
    evaluator is running, was made for the tenant it is registered under,
    and notifies through the notifier the notifier map holds for that
    tenant. *)
Theorem run_registry (E : Env) (c : Config) (d : Disk) (ticks : nat) :
  forall u m,
    userManagers (run E ticks (NewRuler c d)).1 !! u = Some m ->
    mgr_running m = true /\ mgr_userID m = u /\
    exists n, notifiers (run E ticks (NewRuler c d)).1 !! u = Some n
              /\ rn_notifier n = mgr_notifier m
              /\ rn_userID n = u.
Proof.
  assert (Hgen : forall n r, registry_wf r -> registry_wf (run_loop E n r)).
  { induction n as [|n IH]; intros r Hr; [done|].
    simpl. by apply IH, loadRules_registry. }
  assert (Hreg : registry_wf (run E ticks (NewRuler c d)).1).
  { unfold run. cbn [fst]. apply Hgen, loadRules_registry.
    intros u m. unfold NewRuler. cbn [userManagers]. by rewrite lookup_empty. }
  destruct (run_pool E c d ticks) as [(_ & Hmap & _) _].
  intros u m Hu. destruct (Hreg u m Hu) as (Hrun & Hid & n & Hn & Hp).
  split; [done|]. split; [done|]. exists n. split; [done|]. split; [done|].
  by destruct (Hmap u n Hn) as (Hid' & _).
Qed.

(** The evaluator of tenant a after the start-up load. *)
Lemma run_registry_witness :
  exists n,
    notifiers (run Cases.healthyEnv O (NewRuler (Scenario.config true) ∅)).1
      !! "a" = Some n
    /\ rn_notifier n = O /\ rn_userID n = "a".
Proof.
  destruct (run_registry Cases.healthyEnv (Scenario.config true) ∅ O "a"
              {| mgr_ptr := 1; mgr_userID := "a";
                 mgr_ExternalURL := "http://ruler"; mgr_notifier := 0;
                 mgr_running := true; mgr_files := ["/rules/a/ns"];
                 mgr_groups := [] |}) as (_ & _ & H).
  - vm_compute. reflexivity.
  - exact H.
Defined.

(** ** The shard filter *)

(** With a ring that answers each key the same way throughout, the inner
    loop of [loadRules] gives up exactly when the ring fails on the key of
    some group of the tenant, and otherwise keeps, in their order, exactly
    the groups whose key the ring assigns to this ruler. *)
Theorem filterGroups_keeps_owned (E : Env) (ring : Z -> result ReplicationSet)
    (h : Fnv.sum32a) (groups acc : RuleGroupList) (r : Ruler) :
  (forall hist hash, ring_Get E hist hash = ring hash) ->
  (filterGroups E h groups acc r).2
  = if existsb (ringFailsOn ring) groups then None
    else Some (acc ++ List.filter (ownedBySelf E ring) groups).
Proof.
  intros Hring. revert h acc r.
  induction groups as [|g rest IH]; intros h acc r.
  - simpl. by rewrite app_nil_r.
  - rewrite filterGroups_cons. cbv zeta. unfold ownsRule.
    rewrite Hring. cbn [existsb List.filter].
    unfold ringFailsOn at 1, ownedBySelf at 1, groupKey.
    destruct (ring (ShardKey (rg_User g) (rg_Namespace g) (rg_Name g)))
      as [rlrs|err]; cbn [is_err orb]; [|done].
    destruct (String.eqb _ _); rewrite IH;
      destruct (existsb (ringFailsOn ring) rest); try done.
    by rewrite <- app_assoc.
Qed.

(** The ring fails on the key of tenant b's group: the loop gives up on
    b's groups, and keeps a's. *)
Lemma filterGroups_keeps_owned_witness :
  (filterGroups Scenario.abortEnv Fnv.New32a Scenario.tenantB.2 []
     Scenario.fresh).2 = None
  /\ (filterGroups Scenario.abortEnv Fnv.New32a Scenario.tenantA.2 []
        Scenario.fresh).2 = Some Scenario.tenantA.2.
Proof.
  split.
  - rewrite (filterGroups_keeps_owned Scenario.abortEnv Cases.ringOfAbort);
      [reflexivity|]. intros hist hash. reflexivity.
  - rewrite (filterGroups_keeps_owned Scenario.abortEnv Cases.ringOfAbort);
      [reflexivity|]. intros hist hash. reflexivity.
Defined.

(** ** A tick without sharding *)

Lemma after_mapper_not_mapped evs :
  forallb after_mapper evs = true ->
  omap mapped evs = [] /\ forallb (fun e => negb (ring_event e)) evs = true.
Proof.
  induction evs as [|e evs IH]; [done|]. cbn [forallb].
  intros [He Hevs]%andb_prop. destruct (IH Hevs) as [IH1 IH2].
  destruct e; try discriminate; cbn; by rewrite ?IH1, ?IH2.
Qed.

Section Unsharded.

Variable E : Env.

Lemma getOrCreateNotifier_after userID r :
  extends after_mapper r (getOrCreateNotifier E userID r).1.
Proof.
  unfold getOrCreateNotifier.
  destruct (notifiers r !! userID); [apply extends_refl|].
  cbn [alloc]. destruct (applyConfig E _ _); solve_extends.
Qed.

Lemma updateManager_after user manager files r :
  extends after_mapper r (updateManager E user manager files r).
Proof.
  unfold updateManager. destruct (manager_Update E _ _ _ _); solve_extends.
Qed.

(** [syncManager] calls the mapper once, first, with the tenant and the
    groups it was given. *)
Lemma syncManager_maps_once user groups r :
  exists ok evs,
    log (syncManager E user groups r)
    = log r ++ EvMapRules user groups ok :: evs
    /\ forallb after_mapper evs = true.
Proof.
  unfold syncManager.
  destruct (MapRules E _ _ _ _) as [d [[update files]|err]].
  2:{ by exists false, []. }
  destruct update; [|by exists true, []].
  set (r0 := configUpdatesTotal_Inc user _).
  assert (Hl0 : log r0 = log r ++ [EvMapRules user groups true;
                                   EvConfigUpdatesInc user]).
  { subst r0. simpl. by rewrite <- app_assoc. }
  assert (Hrest : forall r1, extends after_mapper r0 r1 ->
            exists ok evs,
              log r1 = log r ++ EvMapRules user groups ok :: evs
              /\ forallb after_mapper evs = true).
  { intros r1 (evs & Hl & Hf). exists true, (EvConfigUpdatesInc user :: evs).
    split; [|done]. rewrite Hl, Hl0, <- app_assoc. done. }
  clearbody r0. apply Hrest.
  destruct (userManagers r0 !! user) as [manager|].
  { apply updateManager_after. }
  unfold newManager. pose proof (getOrCreateNotifier_after user r0) as Hg.
  destruct (getOrCreateNotifier E user r0) as [r1 [p|err]]; cbn [fst] in Hg;
    [|done].
  cbn [alloc]. eapply extends_trans; [exact Hg|].
  eapply extends_trans; [|apply updateManager_after].
  solve_extends.
Qed.

Lemma loadRules_loop_unsharded_maps configs : forall h r,
  EnableSharding (cfg r) = false ->
  exists evs,
    log (loadRules_loop E h configs r).1 = log r ++ evs
    /\ omap mapped evs = configs
    /\ forallb (fun e => negb (ring_event e)) evs = true.
Proof.
  induction configs as [|[user groups] rest IH]; intros h r Hs.
  - exists []. by rewrite app_nil_r.
  - cbn [loadRules_loop]. rewrite Hs.
    destruct (syncManager_maps_once user groups r) as (ok & evs1 & Hl1 & Hf1).
    destruct (after_mapper_not_mapped evs1 Hf1) as [Hm1 Hr1].
    destruct (IH h (syncManager E user groups r)) as (evs2 & Hl2 & Hm2 & Hr2).
    { by rewrite (t_cfg _ _ _ _ (syncManager_touches E user groups r)). }
    exists ((EvMapRules user groups ok :: evs1) ++ evs2). split; [|split].
    + rewrite Hl2, Hl1. by rewrite <- app_assoc.
    + rewrite omap_app. cbn. by rewrite Hm1, Hm2.
    + rewrite forallb_app. cbn. by rewrite Hr1, Hr2.
Qed.

End Unsharded.

(** Without sharding, a tick whose poll succeeds hands every tenant of the
    poll to the mapper, once, with all the groups the poll gave for it and
    in the order the loop visits them; it never asks the ring. *)
Theorem loadRules_unsharded_maps_all (E : Env) (r : Ruler)
    (configs : list (string * RuleGroupList)) :
  EnableSharding (cfg r) = false ->
  ListAllRuleGroups E (log r) = Ok configs ->
  exists evs,
    log (loadRules E r) = log r ++ EvListAllRuleGroups true :: evs
    /\ omap mapped evs = configs
    /\ forallb (fun e => negb (ring_event e)) evs = true.
Proof.
  intros Hs Hpoll.
  destruct (loadRules_polled E r configs Hpoll) as (r1 & b & Hloop & _ & Hr).
  destruct (loadRules_loop_unsharded_maps E configs Fnv.New32a
              (emit (EvListAllRuleGroups true) r) Hs)
    as (evs & Hl & Hm & Hf).
  rewrite Hloop in Hl. cbn [fst] in Hl. rewrite Hr.
  destruct b.
  - destruct (deleteUsers_spec configs r1)
      as (_ & _ & _ & _ & _ & _ & evs2 & Hl2 & Hf2 & _).
    exists (evs ++ evs2). split; [|split].
    + rewrite Hl2, Hl. simpl. by rewrite <- !app_assoc.
    + rewrite omap_app, Hm.
      assert (Hnone : omap mapped evs2 = []).
      { clear -Hf2. induction evs2 as [|e evs2 IH]; [done|].
        cbn in Hf2. apply andb_prop in Hf2 as [He Hevs].
        destruct e; try discriminate. cbn. by apply IH. }
      by rewrite Hnone, app_nil_r.
    + rewrite forallb_app, Hf. cbn.
      clear -Hf2. induction evs2 as [|e evs2 IH]; [done|].
      cbn in Hf2. apply andb_prop in Hf2 as [He Hevs].
      destruct e; try discriminate. cbn. by apply IH.
  - exists evs. split; [|done]. rewrite Hl. simpl. by rewrite <- app_assoc.
Qed.

(** A tick of an unsharded ruler over tenants a and b. *)
Lemma loadRules_unsharded_maps_all_witness :
  exists evs,
    log (loadRules Cases.healthyEnv (NewRuler (Scenario.config false) ∅))
    = [] ++ EvListAllRuleGroups true :: evs
    /\ omap mapped evs = [Scenario.tenantA; Scenario.tenantB]
    /\ forallb (fun e => negb (ring_event e)) evs = true.
Proof.
  apply (loadRules_unsharded_maps_all Cases.healthyEnv
           (NewRuler (Scenario.config false) ∅)
           [Scenario.tenantA; Scenario.tenantB]); reflexivity.
Defined.

(** ** What [getLocalRules] answers *)

Lemma ruleDesc_known (rule : Rule) :
  is_err (ruleDesc rule) = negb (knownRule rule).
Proof. by destruct rule. Qed.

Lemma ruleDescs_spec (rules : list Rule) : forall acc,
  is_err (ruleDescs rules acc) = negb (forallb knownRule rules)
  /\ forall out, ruleDescs rules acc = Ok out ->
       exists ds, out = acc ++ ds
                  /\ Forall2 (fun rule d => ruleDesc rule = Ok d) rules ds.
Proof.
  induction rules as [|rule rest IH]; intros acc; cbn [ruleDescs forallb].
  - split; [done|]. intros out Hout. inversion Hout; subst.
    exists []. by rewrite app_nil_r.
  - pose proof (ruleDesc_known rule) as Hk.
    destruct (ruleDesc rule) as [d|err] eqn:Hd; cbn [is_err] in Hk.
    + destruct (knownRule rule); [|discriminate]. cbn [andb].
      destruct (IH (acc ++ [d])) as [Herr Hok]. split; [exact Herr|].
      intros out Hout. destruct (Hok out Hout) as (ds & Heq & Hall).
      exists (d :: ds). split; [by rewrite Heq, <- app_assoc|].
      by constructor.
    + destruct (knownRule rule); [discriminate|]. split; [done|].
      intros out Hout. discriminate.
Qed.

Lemma groupDescs_loop_spec (userID prefix : string) (groups : list Group) :
  forall acc,
  is_err (groupDescs_loop userID prefix groups acc)
  = negb (forallb (fun g => forallb knownRule (grp_Rules g)) groups)
  /\ forall out, groupDescs_loop userID prefix groups acc = Ok out ->
       exists ds,
         out = acc ++ ds
         /\ Forall2
              (fun g d =>
                 rg_Name d = grp_Name g /\ rg_User d = userID
                 /\ rg_Namespace d = TrimPrefix (grp_File g) prefix
                 /\ rg_Interval d = grp_Interval g
                 /\ rg_EvaluationTimestamp d = grp_EvaluationTimestamp g
                 /\ rg_EvaluationDuration d = grp_EvaluationDuration g
                 /\ Forall2 (fun rule rd => ruleDesc rule = Ok rd)
                      (grp_Rules g) (rg_Rules d))
              groups ds.
Proof.
  induction groups as [|g rest IH]; intros acc;
    cbn [groupDescs_loop forallb].
  - split; [done|]. intros out Hout. inversion Hout; subst.
    exists []. by rewrite app_nil_r.
  - destruct (ruleDescs_spec (grp_Rules g) []) as [Herr Hok].
    destruct (ruleDescs (grp_Rules g) []) as [rules|err]; cbn [is_err] in Herr.
    + destruct (forallb knownRule (grp_Rules g)); [|discriminate].
      cbn [andb].
      match goal with |- context [groupDescs_loop _ _ rest ?a] =>
        destruct (IH a) as [Herr' Hok'] end.
      split; [exact Herr'|]. intros out Hout.
      destruct (Hok' out Hout) as (ds & Heq & Hall).
      destruct (Hok rules eq_refl) as (rds & Hrds & Hrules).
      cbn [app] in Hrds. subst rds.
      eexists (_ :: ds). split; [by rewrite Heq, <- app_assoc|].
      constructor; [|done]. cbn. repeat split; done.
    + destruct (forallb knownRule (grp_Rules g)); [discriminate|].
      split; [done|]. intros out Hout. discriminate.
Qed.

(** [getLocalRules] fails exactly when some running group of the tenant
    holds a rule that is neither an alerting nor a recording rule;
    otherwise it describes every running group of the tenant, one
    description per group and in their order, each under the tenant asked
    for, with the group's name, interval and evaluation times, its file
    without the tenant's directory as namespace, and one description per
    rule in the order of the rules. *)
Theorem getLocalRules_describes_groups (E : Env) (userID : string)
    (r : Ruler) :
  is_err (getLocalRules E userID r)
  = negb (forallb (fun g => forallb knownRule (grp_Rules g))
            (runningGroups r userID))
  /\ forall out, getLocalRules E userID r = Ok out ->
       Forall2
         (fun g d =>
            rg_Name d = grp_Name g /\ rg_User d = userID
            /\ rg_Namespace d = TrimPrefix (grp_File g) (rulePrefix E r userID)
            /\ rg_Interval d = grp_Interval g
            /\ rg_EvaluationTimestamp d = grp_EvaluationTimestamp g
            /\ rg_EvaluationDuration d = grp_EvaluationDuration g
            /\ Forall2 (fun rule rd => ruleDesc rule = Ok rd)
                 (grp_Rules g) (rg_Rules d))
         (runningGroups r userID) out.
Proof.
  unfold getLocalRules, runningGroups, rulePrefix.
  match goal with |- context [groupDescs_loop ?u ?p ?g []] =>
    destruct (groupDescs_loop_spec u p g []) as [Herr Hok] end.
  split; [exact Herr|]. intros out Hout.
  destruct (Hok out Hout) as (ds & Heq & Hall). cbn [app] in Heq. by subst.
Qed.

Lemma prefix_append (pre s : string) : String.prefix pre (pre +:+ s) = true.
Proof.
  induction pre as [|c pre IH]; simpl; [by destruct s|].
  destruct (ascii_dec c c); [exact IH|done].
Qed.

Lemma drop_string_append (pre s : string) :
  drop_string (String.length pre) (pre +:+ s) = s.
Proof. induction pre as [|c pre IH]; simpl; [by destruct s|exact IH]. Qed.

(** The namespace [getLocalRules] answers for a group undoes the layout
    of the rule files: for a file made of the tenant's directory followed
    by a namespace, it is that namespace; for a file that does not start
    with the tenant's directory, it is the whole file name. *)
Theorem getLocalRules_namespace (E : Env) (userID : string) (r : Ruler)
    (out : list RuleGroupDesc) (i : nat) (g : Group) (d : RuleGroupDesc) :
  getLocalRules E userID r = Ok out ->
  runningGroups r userID !! i = Some g ->
  out !! i = Some d ->
  (forall ns, grp_File g = rulePrefix E r userID +:+ ns -> rg_Namespace d = ns)
  /\ (String.prefix (rulePrefix E r userID) (grp_File g) = false ->
      rg_Namespace d = grp_File g).
Proof.
  unfold getLocalRules, runningGroups, rulePrefix. intros Hout Hg Hd.
  match type of Hout with groupDescs_loop ?u ?p ?gs [] = _ =>
    destruct (groupDescs_loop_spec u p gs []) as [_ Hok] end.
  destruct (Hok out Hout) as (ds & Heq & Hall). cbn [app] in Heq. subst ds.
  destruct (Forall2_lookup_lr _ _ _ _ _ _ Hall Hg Hd) as (_ & _ & Hns & _).
  rewrite Hns. unfold TrimPrefix. split.
  - intros ns ->. by rewrite prefix_append, drop_string_append.
  - intros ->. done.
Qed.

(** The group of tenant a, loaded from /rules/a/ns1. *)
Lemma getLocalRules_namespace_witness :
  exists d,
    getLocalRules Scenario.abortEnv "a" Cases.inspected = Ok [d]
    /\ rg_Namespace d = "ns1".
Proof.
  eexists. split; [vm_compute; reflexivity|].
  refine (proj1 (getLocalRules_namespace Scenario.abortEnv "a" Cases.inspected
                   _ O Cases.runningGroup _ _ _ _) "ns1" _).
  - vm_compute. reflexivity.
  - reflexivity.
  - reflexivity.
  - reflexivity.
Defined.

(** ** Shutdown *)

(** [stopping] stops every notifier of the notifier map, then the
    subservices when sharding is on, then every registered evaluator, each
    once; it removes nothing from either map and hands back a nil
    error. *)
Theorem stopping_stops_all (r : Ruler) :
  (stopping r).2 = None
  /\ userManagers (stopping r).1 = userManagers r
  /\ notifiers (stopping r).1 = notifiers r
  /\ log (stopping r).1
     = log r
       ++ map (fun n => EvNotifierStop (rn_notifier n.2))
            (map_to_list (notifiers r))
       ++ (if EnableSharding (cfg r) then [EvSubservicesStop] else [])
       ++ map (fun m => EvManagerStop (mgr_ptr m.2))
            (map_to_list (userManagers r)).
Proof.
  unfold stopping. cbn [fst snd]. split; [done|].
  destruct (fold_emit (fun n => EvNotifierStop (rn_notifier n.2))
              (map_to_list (notifiers r)) r) as (Hc1 & Hm1 & Hn1 & Hl1).
  cbv zeta in *.
  set (r1 := fold_left _ (map_to_list (notifiers r)) r) in *.
  set (r2 := if EnableSharding (cfg r1) then emit EvSubservicesStop r1 else r1).
  assert (H2 : userManagers r2 = userManagers r /\ notifiers r2 = notifiers r
               /\ log r2 = log r1 ++ (if EnableSharding (cfg r) then
                                        [EvSubservicesStop] else [])).
  { subst r2. rewrite Hc1. destruct (EnableSharding (cfg r)); simpl;
      rewrite ?app_nil_r; auto. }
  destruct H2 as (Hm2 & Hn2 & Hl2).
  destruct (fold_emit (fun m => EvManagerStop (mgr_ptr m.2))
              (map_to_list (userManagers r2)) r2) as (_ & Hm3 & Hn3 & Hl3).
  cbv zeta in *.
  split; [congruence|]. split; [congruence|].
  rewrite Hl3, Hl2, Hl1, Hm2, <- !app_assoc. done.
Qed.

(** ** When [Send] is called *)

(** The notify function calls [Send] for every list of alerts but the
    empty one: a list of alerts that are all Pending makes it call [Send]
    with no alert.  It never sends more alerts than it was given, and
    sends as many exactly when none is Pending. *)
Theorem sendAlerts_calls_Send (tableLink : string -> string)
    (externalURL expr : string) (alerts : list Alert) :
  (sendAlerts tableLink externalURL expr alerts = None <-> alerts = [])
  /\ (alerts <> [] ->
      Forall (fun a => alert_State a = StatePending) alerts ->
      sendAlerts tableLink externalURL expr alerts = Some [])
  /\ forall sent,
       sendAlerts tableLink externalURL expr alerts = Some sent ->
       (length sent <= length alerts)%nat
       /\ (length sent = length alerts <->
           Forall (fun a => alert_State a <> StatePending) alerts).
Proof.
  assert (Heq : sendAlerts tableLink externalURL expr alerts
                = match alerts with
                  | [] => None
                  | _ => Some (map (toNotifierAlert tableLink externalURL expr)
                                 (filter (fun a => alert_State a <> StatePending)
                                    alerts))
                  end).
  { unfold sendAlerts. rewrite sendAlerts_loop_spec. by destruct alerts. }
  rewrite Heq. split; [|split].
  - destruct alerts; split; intros H; done.
  - intros Hne Hall. destruct alerts as [|a rest]; [done|]. f_equal.
    assert (Hnone : filter (fun a => alert_State a <> StatePending) (a :: rest)
                    = []).
    { clear -Hall. induction Hall as [|x l Hx Hl IH]; [done|].
      rewrite filter_cons_False by (intros Hn; by apply Hn). exact IH. }
    by rewrite Hnone.
  - intros sent Hsent. destruct alerts as [|a rest]; [done|].
    inversion Hsent; subst sent. rewrite length_map. split.
    + apply length_filter.
    + split.
      * intros Hlen. apply Forall_forall. intros x Hx Hp.
        pose proof (length_filter_lt
                      (fun a => alert_State a <> StatePending) _ x Hx) as Hlt.
        assert (Hnot : ~ alert_State x <> StatePending) by (intros Hn; by apply Hn).
        specialize (Hlt Hnot). lia.
      * intros Hall.
        assert (Hsame : filter (fun a => alert_State a <> StatePending)
                          (a :: rest) = a :: rest).
        { clear -Hall. induction Hall as [|x l Hx Hl IH]; [done|].
          rewrite filter_cons_True by done. by rewrite IH. }
        by rewrite Hsame.
Qed.

(** ** The removal of deleted users *)

Lemma deleteUser_fold_log configs (l : list (string * Manager)) : forall r,
  log (fold_left (deleteUser configs) l r)
  = log r ++ map (fun um => EvManagerStop (mgr_ptr um.2))
               (filter (fun um => um.1 ∉ configs.*1) l).
Proof.
  induction l as [|[k m] l IH]; intros r; cbn [fold_left].
  - by rewrite filter_nil, app_nil_r.
  - rewrite IH.
    destruct (deleteUser_step configs r k m) as (_ & _ & _ & _ & _ & _ & Hl).
    rewrite Hl. case_bool_decide as Hk.
    + rewrite filter_cons_False by (cbn; intros Hn; by apply Hn).
      by rewrite app_nil_r.
    + rewrite filter_cons_True by done. cbn. by rewrite <- app_assoc.
Qed.

(** The loop that removes deleted users leaves in the registry exactly
    the evaluators of the tenants of the poll, each as it was, and stops
    exactly the evaluators it removes, each once; the notifiers, the rule
    files and the counters are not touched. *)
Theorem deleteUsers_exact (configs : list (string * RuleGroupList))
    (r : Ruler) :
  userManagers (deleteUsers configs r)
  = filter (fun um => um.1 ∈ configs.*1) (userManagers r)
  /\ notifiers (deleteUsers configs r) = notifiers r
  /\ disk (deleteUsers configs r) = disk r
  /\ ringCheckErrors (deleteUsers configs r) = ringCheckErrors r
  /\ configUpdatesTotal (deleteUsers configs r) = configUpdatesTotal r
  /\ log (deleteUsers configs r)
     = log r ++ map (fun um => EvManagerStop (mgr_ptr um.2))
                  (filter (fun um => um.1 ∉ configs.*1)
                     (map_to_list (userManagers r))).
Proof.
  destruct (deleteUsers_spec configs r) as (_ & Hn & Hd & Hr & Hu & Hlook & _).
  split; [|split; [done|split; [done|split; [done|split; [done|]]]]].
  - apply map_eq. intros u. rewrite Hlook.
    destruct (userManagers r !! u) as [m|] eqn:Hm.
    + case_bool_decide as Hin.
      * symmetry. by apply map_lookup_filter_Some.
      * symmetry. apply map_lookup_filter_None. right. intros m' _. done.
    + symmetry. case_bool_decide; apply map_lookup_filter_None; by left.
  - unfold deleteUsers. apply deleteUser_fold_log.
Qed.

(** ** What the shard filter hands on *)

Lemma filterGroups_kept_sublist (E : Env) (groups : RuleGroupList) :
  forall (h : Fnv.sum32a) (acc : RuleGroupList) (r : Ruler)
         (filtered : RuleGroupList),
  (filterGroups E h groups acc r).2 = Some filtered ->
  exists kept, filtered = acc ++ kept /\ sublist kept groups.
Proof.
  induction groups as [|g rest IH]; intros h acc r filtered.
  - cbn. intros H. inversion H; subst. exists []. by rewrite app_nil_r.
  - rewrite filterGroups_cons. cbv zeta.
    destruct (ownsRule E _ r) as [r1 [owned|err]]; [|discriminate].
    intros H. apply IH in H as (kept & Heq & Hsub). destruct owned.
    + exists (g :: kept). split; [by rewrite Heq, <- app_assoc|].
      by apply sublist_skip.
    + exists kept. split; [done|]. by apply sublist_cons.
Qed.

(** Whatever the ring answers, the groups the inner loop of [loadRules]
    keeps for a tenant are groups of that tenant in the poll, in the
    order of the poll, none twice: what it hands on is what it held
    followed by a sublist of the groups. *)
Theorem filterGroups_sublist (E : Env) (groups : RuleGroupList)
    (h : Fnv.sum32a) (acc : RuleGroupList) (r : Ruler)
    (filtered : RuleGroupList) :
  (filterGroups E h groups acc r).2 = Some filtered ->
  exists kept, filtered = acc ++ kept /\ sublist kept groups.
Proof. apply filterGroups_kept_sublist. Qed.

(** Tenant a's group passes the ring check. *)
Lemma filterGroups_sublist_witness :
  exists kept, Scenario.tenantA.2 = [] ++ kept
               /\ sublist kept Scenario.tenantA.2.
Proof.
  apply (filterGroups_sublist Scenario.abortEnv Scenario.tenantA.2
           Fnv.New32a [] Scenario.fresh).
  reflexivity.
Defined.

(** ** A tick that finds nothing changed *)

Lemma filterGroups_nextPtr (E : Env) groups : forall h acc r,
  nextPtr (filterGroups E h groups acc r).1.1 = nextPtr r.
Proof.
  induction groups as [|g rest IH]; intros h acc r; [done|].
  rewrite filterGroups_cons. cbv zeta. unfold ownsRule.
  destruct (ring_Get E _ _) as [rlrs|err]; [|done].
  destruct (String.eqb _ _); by rewrite IH.
Qed.

Section Unchanged.

Variable E : Env.

Hypothesis mapper_quiet :
  forall hist user groups d, no_change (MapRules E hist user groups d).2 = true.

Lemma syncManager_unchanged user groups r :
  userManagers (syncManager E user groups r) = userManagers r
  /\ notifiers (syncManager E user groups r) = notifiers r
  /\ configUpdatesTotal (syncManager E user groups r) = configUpdatesTotal r
  /\ nextPtr (syncManager E user groups r) = nextPtr r
  /\ cfg (syncManager E user groups r) = cfg r.
Proof.
  unfold syncManager. pose proof (mapper_quiet (log r) user groups (disk r)) as H.
  destruct (MapRules E _ _ _ _) as [d [[[|] files]|err]]; cbn in H;
    [discriminate|done|done].
Qed.

Lemma loadRules_loop_unchanged configs : forall h r,
  let r' := (loadRules_loop E h configs r).1 in
  userManagers r' = userManagers r /\ notifiers r' = notifiers r
  /\ configUpdatesTotal r' = configUpdatesTotal r /\ nextPtr r' = nextPtr r.
Proof.
  induction configs as [|[user groups] rest IH]; intros h r; cbv zeta; [done|].
  cbn [loadRules_loop].
  assert (Hstep : forall h' groups' r0,
            nextPtr r0 = nextPtr r -> userManagers r0 = userManagers r ->
            notifiers r0 = notifiers r ->
            configUpdatesTotal r0 = configUpdatesTotal r ->
            let r' := (loadRules_loop E h' rest
                         (syncManager E user groups' r0)).1 in
            userManagers r' = userManagers r /\ notifiers r' = notifiers r
            /\ configUpdatesTotal r' = configUpdatesTotal r
            /\ nextPtr r' = nextPtr r).
  { intros h' groups' r0 Hp Hm Hn Hu. cbv zeta.
    destruct (syncManager_unchanged user groups' r0) as (Hm1 & Hn1 & Hu1 & Hp1 & _).
    destruct (IH h' (syncManager E user groups' r0)) as (Hm2 & Hn2 & Hu2 & Hp2).
    repeat split; congruence. }
  destruct (EnableSharding (cfg r)); [|by apply Hstep].
  pose proof (filterGroups_nextPtr E groups h [] r) as Hp.
  destruct (filterGroups E h groups [] r) as [[r1 h1] [filtered|]] eqn:Hf;
    cbn [fst] in Hp;
    apply filterGroups_spec in Hf as ((_ & Hm & Hn & Hu & _) & _).
  - by apply Hstep.
  - done.
Qed.

End Unchanged.

Lemma deleteUsers_nextPtr configs r :
  nextPtr (deleteUsers configs r) = nextPtr r.
Proof.
  unfold deleteUsers. generalize (map_to_list (userManagers r)). intros l.
  revert r. induction l as [|[k m] l IH]; intros r; [done|].
  cbn [fold_left]. rewrite IH. unfold deleteUser. by case_bool_decide.
Qed.

(** When the mapper never reports a change (it fails, or finds the files
    as they should be), a tick creates and updates nothing: no notifier
    and no evaluator is made, no config update is counted, and the
    registry can only lose the evaluators of tenants that left the
    poll. *)
Theorem loadRules_unchanged (E : Env) (r : Ruler) :
  (forall hist user groups d,
     no_change (MapRules E hist user groups d).2 = true) ->
  notifiers (loadRules E r) = notifiers r
  /\ configUpdatesTotal (loadRules E r) = configUpdatesTotal r
  /\ nextPtr (loadRules E r) = nextPtr r
  /\ (forall u m, userManagers (loadRules E r) !! u = Some m ->
        userManagers r !! u = Some m)
  /\ (forall configs u,
        ListAllRuleGroups E (log r) = Ok configs -> u ∈ configs.*1 ->
        userManagers (loadRules E r) !! u = userManagers r !! u).
Proof.
  intros Hquiet. unfold loadRules.
  destruct (ListAllRuleGroups E (log r)) as [configs|err].
  2:{ repeat split; try done; intros configs u H; discriminate. }
  destruct (loadRules_loop_unchanged E Hquiet configs Fnv.New32a
              (emit (EvListAllRuleGroups true) r)) as (Hm & Hn & Hu & Hp).
  destruct (loadRules_loop E Fnv.New32a configs _) as [r1 b].
  cbn [fst userManagers notifiers configUpdatesTotal nextPtr emit] in *.
  destruct b.
  - destruct (deleteUsers_spec configs r1)
      as (_ & Hn2 & _ & _ & Hu2 & Hlook & _).
    pose proof (deleteUsers_nextPtr configs r1) as Hp2.
    split; [congruence|]. split; [congruence|]. split; [congruence|]. split.
    + intros u m. rewrite Hlook. case_bool_decide; [|done]. by rewrite Hm.
    + intros configs' u Heq Hin. inversion Heq; subst configs'.
      rewrite Hlook, bool_decide_eq_true_2 by done. by rewrite Hm.
  - split; [done|]. split; [done|]. split; [done|]. split.
    + intros u m. by rewrite Hm.
    + intros configs' u _ _. by rewrite Hm.
Qed.

(** The mapper fails for every tenant. *)
Lemma loadRules_unchanged_witness :
  notifiers (loadRules Cases.mapperFailsEnv Scenario.withZ)
  = notifiers Scenario.withZ.
Proof.
  eapply (loadRules_unchanged Cases.mapperFailsEnv Scenario.withZ).
  intros hist user groups d. reflexivity.
Defined.

(** ** One evaluator per tenant *)

Lemma registry_inj_subset r r' :
  registry_inj r ->
  (forall u m, userManagers r' !! u = Some m -> userManagers r !! u = Some m) ->
  registry_inj r'.
Proof. intros Hinj Hsub u v m m' Hu Hv. apply (Hinj u v m m'); auto. Qed.

Lemma registry_inj_insert r user m :
  registry_inj r ->
  (forall v m', v <> user -> userManagers r !! v = Some m' ->
                mgr_ptr m' <> mgr_ptr m) ->
  forall mm, mm = userManagers r ->
  registry_inj (set_userManagers (<[user := m]> mm) r).
Proof.
  intros Hinj Hother mm -> u v m1 m2. cbn [userManagers set_userManagers].
  destruct (decide (u = user)) as [->|Hu];
    destruct (decide (v = user)) as [->|Hv]; [done| | |].
  - rewrite lookup_insert_eq, lookup_insert_ne by done.
    intros Heq Hm2 Hp. inversion Heq; subst m1.
    by destruct (Hother v m2 Hv Hm2).
  - rewrite lookup_insert_eq, lookup_insert_ne by done.
    intros Hm1 Heq Hp. inversion Heq; subst m2.
    by destruct (Hother u m1 Hu Hm1).
  - rewrite !lookup_insert_ne by done. apply Hinj.
Qed.

Section OneEvaluator.

Variable E : Env.

Lemma updateManager_inj user manager files r m0 :
  registry_inj r ->
  userManagers r !! user = Some m0 -> mgr_ptr m0 = mgr_ptr manager ->
  registry_inj (updateManager E user manager files r).
Proof.
  intros Hinj Hm0 Hp. unfold updateManager.
  destruct (manager_Update E _ _ _ _) as [groups|err].
  - eapply (registry_inj_subset
              (set_userManagers
                 (<[user := Manager_loaded files groups manager]>
                    (userManagers r)) r)); [|by intros u m].
    apply registry_inj_insert; [done| |done].
    intros v m' Hv Hm' Heq. cbn in Heq. apply Hv.
    apply (Hinj v user m' m0); [done|done|congruence].
  - by eapply (registry_inj_subset r); [|intros u m].
Qed.

Lemma newManager_fresh userID r r1 m :
  pool_wf r -> newManager E userID r = (r1, Ok m) ->
  userManagers r1 = userManagers r /\
  forall v m', userManagers r !! v = Some m' -> (mgr_ptr m' < mgr_ptr m)%nat.
Proof.
  intros Hwf. unfold newManager.
  pose proof (getOrCreateNotifier_pool E userID r Hwf) as [_ Hm].
  destruct (getOrCreateNotifier E userID r) as [r0 [p|err]] eqn:Hg;
    [|discriminate].
  apply getOrCreateNotifier_touches in Hg as (_ & Hmgr & _).
  cbn [fst alloc] in *. intros H. inversion H; subst. cbn.
  split; [done|]. intros v m' Hv. apply (Hm v m'). by rewrite Hmgr.
Qed.

Lemma syncManager_inj user groups r :
  pool_wf r -> registry_inj r -> registry_inj (syncManager E user groups r).
Proof.
  intros Hwf Hinj. unfold syncManager.
  destruct (MapRules E _ _ _ _) as [d [[update files]|err]].
  2:{ by eapply (registry_inj_subset r); [|intros u m]. }
  destruct update.
  2:{ by eapply (registry_inj_subset r); [|intros u m]. }
  set (r0 := configUpdatesTotal_Inc user _).
  assert (H0 : registry_inj r0).
  { by eapply (registry_inj_subset r); [|intros u m]. }
  assert (Hwf0 : pool_wf r0).
  { subst r0. apply pool_wf_emit; [|done|done].
    apply (pool_wf_frame (emit (EvMapRules user groups true) (set_disk d r)));
      cbn; auto.
    apply pool_wf_emit; [|done|done]. by apply (pool_wf_frame r). }
  clearbody r0.
  destruct (userManagers r0 !! user) as [manager|] eqn:Hmgr.
  { by apply (updateManager_inj user manager files r0 manager). }
  destruct (newManager E user r0) as [r1 [manager|err]] eqn:Hn.
  - destruct (newManager_fresh _ _ _ _ Hwf0 Hn) as [Hm Hfresh].
    apply (updateManager_inj user (Manager_Run manager) files _
             (Manager_Run manager)); [| |done].
    + apply registry_inj_insert; [|cbn|done].
      * by eapply (registry_inj_subset r0); [|intros u m; cbn; rewrite Hm].
      * intros v m' _. rewrite Hm. intros Hv Heq.
        pose proof (Hfresh v m' Hv). lia.
    + cbn. by rewrite lookup_insert_eq.
  - apply newManager_touches in Hn as (_ & Hm & _).
    by eapply (registry_inj_subset r0); [|intros u m; rewrite Hm].
Qed.

Lemma loadRules_loop_inj configs : forall h r,
  pool_wf r -> registry_inj r ->
  registry_inj (loadRules_loop E h configs r).1.
Proof.
  induction configs as [|[user groups] rest IH]; intros h r Hwf Hinj; [done|].
  cbn [loadRules_loop]. destruct (EnableSharding (cfg r)).
  - pose proof (filterGroups_pool E groups h [] r Hwf) as Hp.
    destruct (filterGroups E h groups [] r) as [[r1 h1] [filtered|]] eqn:Hf;
      cbn [fst] in *;
      apply filterGroups_spec in Hf as ((_ & Hm & _) & _).
    + assert (H1 : registry_inj r1).
      { by eapply (registry_inj_subset r); [|intros u m; rewrite Hm]. }
      apply IH; [by apply syncManager_pool | by apply syncManager_inj].
    + by eapply (registry_inj_subset r); [|intros u m; rewrite Hm].
  - apply IH; [by apply syncManager_pool | by apply syncManager_inj].
Qed.

Lemma loadRules_inj r :
  pool_wf r -> registry_inj r -> registry_inj (loadRules E r).
Proof.
  intros Hwf Hinj. unfold loadRules.
  destruct (ListAllRuleGroups E (log r)) as [configs|err].
  2:{ by eapply (registry_inj_subset r); [|intros u m]. }
  assert (Hwf0 : pool_wf (emit (EvListAllRuleGroups true) r))
    by (by apply pool_wf_emit).
  pose proof (loadRules_loop_inj configs Fnv.New32a _ Hwf0) as Hloop.
  destruct (loadRules_loop E Fnv.New32a configs _) as [r1 b]; cbn [fst] in *.
  assert (H1 : registry_inj r1).
  { apply Hloop. by eapply (registry_inj_subset r); [|intros u m]. }
  destruct b; [|done].
  destruct (deleteUsers_spec configs r1) as (_ & _ & _ & _ & _ & Hlook & _).
  eapply (registry_inj_subset r1); [done|].
  intros u m. rewrite Hlook. by case_bool_decide.
Qed.

End OneEvaluator.

(** In every state [run] reaches from a new ruler no two tenants share an
    evaluator, and every registered evaluator lives at an address that
    was allocated. *)
Theorem run_one_evaluator_per_tenant (E : Env) (c : Config) (d : Disk)
    (ticks : nat) :
  registry_inj (run E ticks (NewRuler c d)).1
  /\ managers_wf (run E ticks (NewRuler c d)).1.
Proof.
  split; [|apply run_pool].
  assert (Hgen : forall n r, pool_wf r -> registry_inj r ->
                   registry_inj (run_loop E n r)).
  { induction n as [|n IH]; intros r Hwf Hr; [done|].
    simpl. apply IH; [by apply loadRules_pool | by apply loadRules_inj]. }
  assert (Hnew : pool_wf (NewRuler c d)).
  { split; [apply NewRuler_notifiers_wf|].
    intros u m. unfold NewRuler. cbn [userManagers]. by rewrite lookup_empty. }
  assert (Hinj : registry_inj (NewRuler c d)).
  { intros u v m m'. unfold NewRuler. cbn [userManagers].
    by rewrite lookup_empty. }
  unfold run. cbn [fst].
  apply Hgen; [by apply loadRules_pool | by apply loadRules_inj].
Qed.

(** ** What a tick hands to the mapper *)

Lemma ring_events_not_mapped evs :
  forallb ring_event evs = true -> omap mapped evs = [].
Proof.
  induction evs as [|e evs IH]; [done|]. cbn [forallb].
  intros [He Hevs]%andb_prop. destruct e; try discriminate; cbn; by apply IH.
Qed.

Lemma filterGroups_ring_events (E : Env) h groups acc r :
  exists evs,
    log (filterGroups E h groups acc r).1.1 = log r ++ evs
    /\ forallb ring_event evs = true.
Proof.
  destruct (filterGroups E h groups acc r) as [[r1 h1] res] eqn:Hf.
  apply filterGroups_spec in Hf as (_ & Hres). cbn [fst].
  assert (Hok : forall evs, forallb ring_ok evs = true ->
                            forallb ring_event evs = true).
  { intros evs. rewrite !forallb_forall. intros H e He. specialize (H e He).
    by destruct e. }
  destruct res.
  - destruct Hres as (_ & evs & Hl & Hf). exists evs. auto.
  - destruct Hres as (_ & evs & hash & Hl & Hf). eexists. split; [exact Hl|].
    by rewrite forallb_app, (Hok _ Hf).
Qed.

Lemma loadRules_loop_maps (E : Env) configs : forall h r,
  exists evs n,
    log (loadRules_loop E h configs r).1 = log r ++ evs
    /\ Forall2 (fun call entry => call.1 = entry.1 /\ sublist call.2 entry.2)
         (omap mapped evs) (take n configs).
Proof.
  induction configs as [|[user groups] rest IH]; intros h r.
  - exists [], O. cbn. by rewrite app_nil_r.
  - cbn [loadRules_loop].
    assert (Hstep : forall h' groups' r0 evs0,
              log r0 = log r ++ evs0 -> omap mapped evs0 = [] ->
              sublist groups' groups ->
              exists evs n,
                log (loadRules_loop E h' rest (syncManager E user groups' r0)).1
                = log r ++ evs
                /\ Forall2 (fun call entry =>
                              call.1 = entry.1 /\ sublist call.2 entry.2)
                     (omap mapped evs) (take n ((user, groups) :: rest))).
    { intros h' groups' r0 evs0 Hl0 Hm0 Hsub.
      destruct (syncManager_maps_once E user groups' r0)
        as (ok & evs1 & Hl1 & Hf1).
      destruct (after_mapper_not_mapped evs1 Hf1) as [Hm1 _].
      destruct (IH h' (syncManager E user groups' r0)) as (evs2 & n & Hl2 & Hall).
      exists (evs0 ++ (EvMapRules user groups' ok :: evs1) ++ evs2), (S n).
      split.
      - rewrite Hl2, Hl1, Hl0. by rewrite <- !app_assoc.
      - rewrite !omap_app, Hm0. cbn. rewrite Hm1. cbn.
        constructor; [done|exact Hall]. }
    destruct (EnableSharding (cfg r)).
    + destruct (filterGroups_ring_events E h groups [] r) as (evs0 & Hl0 & Hf0).
      pose proof (filterGroups_kept_sublist E groups h [] r) as Hsub.
      destruct (filterGroups E h groups [] r) as [[r1 h1] [filtered|]];
        cbn [fst snd] in *.
      * destruct (Hsub filtered eq_refl) as (kept & Heq & Hk). cbn in Heq.
        subst kept.
        by apply (Hstep h1 filtered r1 evs0); [|apply ring_events_not_mapped|].
      * exists evs0, O. split; [done|].
        rewrite (ring_events_not_mapped _ Hf0). constructor.
    + apply (Hstep h groups r []); [by rewrite app_nil_r|done|done].
Qed.

(** A tick hands the mapper nothing that the poll did not bring: the
    calls of the mapper go, in the order of the loop, to the first tenants
    of the poll, one call each, with groups taken from those the poll gave
    for that tenant, in their order. *)
Theorem loadRules_maps_only_polled (E : Env) (r : Ruler)
    (configs : list (string * RuleGroupList)) :
  ListAllRuleGroups E (log r) = Ok configs ->
  exists evs n,
    log (loadRules E r) = log r ++ EvListAllRuleGroups true :: evs
    /\ Forall2 (fun call entry => call.1 = entry.1 /\ sublist call.2 entry.2)
         (omap mapped evs) (take n configs).
Proof.
  intros Hpoll.
  destruct (loadRules_polled E r configs Hpoll) as (r1 & b & Hloop & _ & Hr).
  destruct (loadRules_loop_maps E configs Fnv.New32a
              (emit (EvListAllRuleGroups true) r)) as (evs & n & Hl & Hall).
  rewrite Hloop in Hl. cbn [fst] in Hl. rewrite Hr. destruct b.
  - destruct (deleteUsers_spec configs r1)
      as (_ & _ & _ & _ & _ & _ & evs2 & Hl2 & Hf2 & _).
    exists (evs ++ evs2), n. split.
    + rewrite Hl2, Hl. simpl. by rewrite <- !app_assoc.
    + rewrite omap_app.
      assert (Hnone : omap mapped evs2 = []).
      { clear -Hf2. induction evs2 as [|e evs2 IH]; [done|].
        cbn in Hf2. apply andb_prop in Hf2 as [He Hevs].
        destruct e; try discriminate. cbn. by apply IH. }
      by rewrite Hnone, app_nil_r.
  - exists evs, n. split; [|done]. rewrite Hl. simpl. by rewrite <- app_assoc.
Qed.

(** The ring fails on tenant b: only tenant a reaches the mapper. *)
Lemma loadRules_maps_only_polled_witness :
  exists evs n,
    log (loadRules Scenario.abortEnv Scenario.fresh)
    = log Scenario.fresh ++ EvListAllRuleGroups true :: evs
    /\ Forall2 (fun call entry => call.1 = entry.1 /\ sublist call.2 entry.2)
         (omap mapped evs) (take n [Scenario.tenantA; Scenario.tenantB]).
Proof.
  apply (loadRules_maps_only_polled Scenario.abortEnv Scenario.fresh
           [Scenario.tenantA; Scenario.tenantB]).
  reflexivity.
Defined.
